(** * The kubelet image-manager cache (pkg/kubelet/images/state.go)

    A shallow embedding of [imageManagerCache] and its methods, with the
    operating-system calls and the mutexes made explicit, followed by the
    properties of the cache checked against it. *)

From stdpp Require Import gmap strings list fin_maps.
From Stdlib Require Import ZArith.

(** ** Data model *)

(** [time.Time] and [time.Duration] are kept as integers (nanoseconds);
    [t.Add(d)] is addition and [t.Before(u)] is [<]. *)
Definition time_Add (t d : Z) : Z := (t + d)%Z.
Definition time_Before (t u : Z) : bool := (t <? u)%Z.

(** A [sync.RWMutex] is the number of times it is currently held for writing;
    the zero value is an unlocked mutex. *)
Definition Mutex := nat.

Record EnsuredInfo := {
  Ensured : bool;
  LastEnsuredDate : Z
}.

(** [Auths map[string]*EnsuredInfo]: a value may be the nil pointer, hence the
    [option].  A nil [Auths] map and an empty one read alike and are not told
    apart. *)
Record ImagePullInfo := {
  mux : Mutex;
  Auths : gmap string (option EnsuredInfo)
}.

(** [cache] is [None] for the nil map of a zero-valued struct. *)
Record imageManagerCache := {
  lock : Mutex;
  cache : option (gmap string ImagePullInfo);
  imageStateManagerPath : string
}.

Definition imageManagerstateFileName : string := "image_state_manager".

(** ** Errors *)

Inductive errno := ENOENT | EACCES | EISDIR | ENOTEMPTY | EIO.

(** A Go [error] that is not nil: a [*fs.PathError] of the [os] package or a
    decoding error of the JSON package. *)
Inductive error :=
| PathError (e : errno)
| SyntaxError.

Definition os_IsNotExist (err : error) : bool :=
  match err with
  | PathError ENOENT => true
  | _ => false
  end.

(** ** The JSON codec *)

(** Modelled from the spec: the codec [k8s.io/apimachinery/pkg/util/json] is
    not among the sources.  The bytes of a file are kept up to what the decoder
    makes of them: either the document
    [{"auths": {hash: {"ensured": .., "lastEnsuredDate": ..}, ..}}], or bytes
    that are malformed JSON.  The mutex of a record is unexported and is not
    serialised; decoding fills a new record, whose mutex is unlocked. *)
Inductive bytes :=
| JSONDoc (auths : gmap string (option EnsuredInfo))
| NotJSON (raw : string).

Definition utiljson_Marshal (info : ImagePullInfo) : bytes + error :=
  inl (JSONDoc (Auths info)).

Definition utiljson_Unmarshal (byteData : bytes) : ImagePullInfo + error :=
  match byteData with
  | JSONDoc a => inl {| mux := 0; Auths := a |}
  | NotJSON _ => inr SyntaxError
  end.

(** ** The operating system *)

Inductive node :=
| File (data : bytes) (perm : Z)
| Dir.

(** A file mode written in octal, as in [0644]: the digits of the owner, the
    group and the others. *)
Definition octal (u g o : Z) : Z := (u * 64 + g * 8 + o)%Z.

Inductive sysname := NStat | NReadFile | NWriteFile | NRemove.

Inductive syscall :=
| SysStat (path : string)
| SysReadFile (path : string)
| SysWriteFile (path : string) (data : bytes) (perm : Z)
| SysRemove (path : string).

(** The file system is flat: [files] says of each path whether it names a
    file, a directory or nothing.  Every other cause of failure (a missing or
    unsearchable parent directory, a full disk, a directory that is not empty)
    comes from [fault].  [calls] records the system calls made, oldest first. *)
Record OS := {
  files : gmap string node;
  fault : sysname → string → option errno;
  calls : list syscall;
  clock : Z;
  umask : Z
}.

Definition log_call (ev : syscall) (o : OS) : OS :=
  {| files := files o; fault := fault o; calls := calls o ++ [ev];
     clock := clock o; umask := umask o |}.

Definition set_files (fs : gmap string node) (o : OS) : OS :=
  {| files := fs; fault := fault o; calls := calls o;
     clock := clock o; umask := umask o |}.

(** [filepath.Join] of a directory and one element: an empty element is
    ignored.  The lexical cleaning of [.], [..] and repeated separators is not
    modelled: the file's name is the image reference as it stands. *)
Definition filepath_Join (dir elem : string) : string :=
  if decide (elem = EmptyString) then dir
  else if decide (dir = EmptyString) then elem
  else dir +:+ "/" +:+ elem.

Definition os_Stat (path : string) (o : OS) : option error * OS :=
  let o' := log_call (SysStat path) o in
  match fault o NStat path with
  | Some e => (Some (PathError e), o')
  | None =>
      match files o !! path with
      | Some _ => (None, o')
      | None => (Some (PathError ENOENT), o')
      end
  end.

Definition os_ReadFile (path : string) (o : OS) : (bytes + error) * OS :=
  let o' := log_call (SysReadFile path) o in
  match fault o NReadFile path with
  | Some e => (inr (PathError e), o')
  | None =>
      match files o !! path with
      | Some (File data _) => (inl data, o')
      | Some Dir => (inr (PathError EISDIR), o')
      | None => (inr (PathError ENOENT), o')
      end
  end.

(** [os.WriteFile]: a file that does not exist is created with [perm] less the
    process umask; an existing file is truncated and keeps its mode. *)
Definition os_WriteFile (path : string) (data : bytes) (perm : Z) (o : OS)
  : option error * OS :=
  let o' := log_call (SysWriteFile path data perm) o in
  match fault o NWriteFile path with
  | Some e => (Some (PathError e), o')
  | None =>
      match files o !! path with
      | Some Dir => (Some (PathError EISDIR), o')
      | Some (File _ old) => (None, set_files (<[path := File data old]> (files o)) o')
      | None =>
          (None, set_files (<[path := File data (Z.ldiff perm (umask o))]> (files o)) o')
      end
  end.

Definition os_Remove (path : string) (o : OS) : option error * OS :=
  let o' := log_call (SysRemove path) o in
  match fault o NRemove path with
  | Some e => (Some (PathError e), o')
  | None =>
      match files o !! path with
      | Some _ => (None, set_files (delete path (files o)) o')
      | None => (Some (PathError ENOENT), o')
      end
  end.

(** ** Mutexes *)

(** Go's mutexes are not reentrant: [Lock] on a mutex that is held waits for
    it to be released, and in a call that holds it itself it waits for ever.
    [GoMutex] is that behaviour.  [ReentrantMutex] is not Go's: it lets a
    holder lock again, and serves to tell what the body of a method computes
    apart from where it stops. *)
Inductive mutex_semantics := GoMutex | ReentrantMutex.

Definition Mutex_Lock (m : mutex_semantics) (held : Mutex) : option Mutex :=
  match m, held with
  | GoMutex, O => Some 1
  | GoMutex, S _ => None
  | ReentrantMutex, n => Some (S n)
  end.

(** Unlocking a mutex that is not locked is a fatal error of the runtime. *)
Definition Mutex_Unlock (held : Mutex) : option Mutex :=
  match held with
  | O => None
  | S n => Some n
  end.

(** ** Calls *)

(** What a call comes to: it returns, it waits for ever on a mutex, or it
    panics.  Each carries the cache object and the system as they are then. *)
Inductive outcome (A : Type) :=
| Done (a : A) (c : imageManagerCache) (o : OS)
| Blocked (c : imageManagerCache) (o : OS)
| Panicked (c : imageManagerCache) (o : OS).
Arguments Done {A} a c o.
Arguments Blocked {A} c o.
Arguments Panicked {A} c o.

Definition M (A : Type) : Type := imageManagerCache → OS → outcome A.

Definition ret {A} (a : A) : M A := fun c o => Done a c o.

Definition bind {A B} (x : M A) (k : A → M B) : M B :=
  fun c o =>
    match x c o with
    | Done a c' o' => k a c' o'
    | Blocked c' o' => Blocked c' o'
    | Panicked c' o' => Panicked c' o'
    end.

Notation "x <- c1 ;; c2" := (bind c1 (fun x => c2))
  (at level 100, c1 at next level, right associativity).
Notation "c1 ;;; c2" := (bind c1 (fun _ => c2))
  (at level 100, right associativity).

Definition sys {A} (call : OS → A * OS) : M A :=
  fun c o => let '(a, o') := call o in Done a c o'.

Definition time_Now : M Z := fun c o => Done (clock o) c o.

Definition set_lock (n : Mutex) (c : imageManagerCache) : imageManagerCache :=
  {| lock := n; cache := cache c; imageStateManagerPath := imageStateManagerPath c |}.

Definition set_cache (cm : option (gmap string ImagePullInfo)) (c : imageManagerCache)
  : imageManagerCache :=
  {| lock := lock c; cache := cm; imageStateManagerPath := imageStateManagerPath c |}.

Definition set_mux (n : Mutex) (info : ImagePullInfo) : ImagePullInfo :=
  {| mux := n; Auths := Auths info |}.

Definition set_Auths (a : gmap string (option EnsuredInfo)) (info : ImagePullInfo)
  : ImagePullInfo :=
  {| mux := mux info; Auths := a |}.

(** [c.lock.Lock()] and [c.lock.Unlock()]. *)
Definition c_lock_Lock (m : mutex_semantics) : M unit :=
  fun c o =>
    match Mutex_Lock m (lock c) with
    | Some n => Done tt (set_lock n c) o
    | None => Blocked c o
    end.

Definition c_lock_Unlock : M unit :=
  fun c o =>
    match Mutex_Unlock (lock c) with
    | Some n => Done tt (set_lock n c) o
    | None => Panicked c o
    end.

(** [c.lock.Lock(); defer c.lock.Unlock()] around the rest of a method. *)
Definition with_c_lock {A} (m : mutex_semantics) (body : M A) : M A :=
  c_lock_Lock m ;;; r <- body ;; c_lock_Unlock ;;; ret r.

(** [c.cache[imageRef].mux.Lock()] and [.Unlock()]: the record is reached
    through the map, and a missing one is a nil pointer. *)
Definition mux_Lock (m : mutex_semantics) (imageRef : string) : M unit :=
  fun c o =>
    match cache c with
    | Some cm =>
        match cm !! imageRef with
        | Some info =>
            match Mutex_Lock m (mux info) with
            | Some n => Done tt (set_cache (Some (<[imageRef := set_mux n info]> cm)) c) o
            | None => Blocked c o
            end
        | None => Panicked c o
        end
    | None => Panicked c o
    end.

Definition mux_Unlock (imageRef : string) : M unit :=
  fun c o =>
    match cache c with
    | Some cm =>
        match cm !! imageRef with
        | Some info =>
            match Mutex_Unlock (mux info) with
            | Some n => Done tt (set_cache (Some (<[imageRef := set_mux n info]> cm)) c) o
            | None => Panicked c o
            end
        | None => Panicked c o
        end
    | None => Panicked c o
    end.

(** [c.cache[imageRef]], [nil] when the map is nil or has no such key. *)
Definition cache_lookup (imageRef : string) (c : imageManagerCache) : option ImagePullInfo :=
  match cache c with
  | Some cm => cm !! imageRef
  | None => None
  end.

(** [c.cache[imageRef] = info]: assignment to an entry of a nil map panics. *)
Definition cache_assign (imageRef : string) (info : ImagePullInfo) : M unit :=
  fun c o =>
    match cache c with
    | Some cm => Done tt (set_cache (Some (<[imageRef := info]> cm)) c) o
    | None => Panicked c o
    end.

(** ** The methods of [imageManagerCache] *)

Definition loadImageManagerCache (m : mutex_semantics) (imageRef : string)
  : M (option error) :=
  fun c o =>
    let path := filepath_Join (imageStateManagerPath c) imageRef in
    (err <- sys (os_Stat path) ;;
     match err with
     | Some e => if os_IsNotExist e then ret None else ret (Some e)
     | None =>
         if decide (imageRef = EmptyString) then ret None
         else
           with_c_lock m
             (r <- sys (os_ReadFile path) ;;
              match r with
              | inr e => ret (Some e)
              | inl byteData =>
                  match utiljson_Unmarshal byteData with
                  | inr e => ret (Some e)
                  | inl info => cache_assign imageRef info ;;; ret None
                  end
              end)
     end) c o.

(** The result of [loadImageManagerCache] is dropped. *)
Definition getImagePullInfo (m : mutex_semantics) (imageRef : string)
  : M (option ImagePullInfo) :=
  with_c_lock m
    (loadImageManagerCache m imageRef ;;;
     fun c o => Done (cache_lookup imageRef c) c o).

(** [pullInfo] and [c.cache[imageRef]] are one and the same record, so both
    reads of [Auths] go through the map. *)
Definition getAuthInfo (m : mutex_semantics) (imageRef hash : string)
  : M (option EnsuredInfo) :=
  pullInfo <- getImagePullInfo m imageRef ;;
  match pullInfo with
  | None => ret None
  | Some _ =>
      with_c_lock m
        (mux_Lock m imageRef ;;;
         r <- (fun c o =>
                 Done (match cache_lookup imageRef c with
                       | Some info =>
                           match Auths info !! hash with
                           | Some authInfo => authInfo
                           | None => None
                           end
                       | None => None
                       end) c o) ;;
         mux_Unlock imageRef ;;;
         ret r)
  end.

Definition storeImageManagerCache (m : mutex_semantics) (imageRef : string)
  : M (option error) :=
  with_c_lock m
    (info <- getImagePullInfo m imageRef ;;
     match info with
     | None => ret None
     | Some info =>
         if decide (imageRef = EmptyString) then ret None
         else
           match utiljson_Marshal info with
           | inr e => ret (Some e)
           | inl byteData =>
               fun c o =>
                 let path := filepath_Join (imageStateManagerPath c) imageRef in
                 sys (os_WriteFile path byteData (octal 6 4 4)) c o
           end
     end).

Definition setImagePullInfo (m : mutex_semantics) (imageRef hash : string)
    (data : option EnsuredInfo) : M (option error) :=
  with_c_lock m
    ((fun c o =>
        let cm := default ∅ (cache c) in
        let authInfo : gmap string (option EnsuredInfo) := {[ hash := data ]} in
        Done tt (set_cache (Some (<[imageRef := {| mux := 0; Auths := authInfo |}]> cm)) c) o) ;;;
     storeImageManagerCache m imageRef).

Definition deleteImagePullInfo (m : mutex_semantics) (imageRef : string)
  : M (option error) :=
  with_c_lock m
    ((fun c o =>
        match cache c with
        | Some cm => Done tt (set_cache (Some (delete imageRef cm)) c) o
        | None => Done tt c o
        end) ;;;
     fun c o => sys (os_Remove (filepath_Join (imageStateManagerPath c) imageRef)) c o).

(** The nil check of [c.cache] comes before the lock is taken. *)
Definition setAuthInfo (m : mutex_semantics) (imageRef hash : string)
    (data : option EnsuredInfo) : M unit :=
  (fun c o => Done tt (set_cache (Some (default ∅ (cache c))) c) o) ;;;
  c_lock_Lock m ;;;
  cache_assign imageRef {| mux := 0; Auths := {[ hash := data ]} |} ;;;
  c_lock_Unlock.

Definition deleteAuthInfo (m : mutex_semantics) (imageRef hash : string) : M unit :=
  with_c_lock m
    (fun c o =>
       match cache_lookup imageRef c with
       | Some _ =>
           (mux_Lock m imageRef ;;;
            (fun c o =>
               match cache c with
               | Some cm =>
                   Done tt (set_cache
                              (Some (alter (fun info => set_Auths (delete hash (Auths info)) info)
                                           imageRef cm)) c) o
               | None => Done tt c o
               end) ;;;
            mux_Unlock imageRef) c o
       | None => Done tt c o
       end).

(** The inner loop of [refreshImageManagerCache] over the entries of one
    record.  [range] over a map yields the entries it holds when the loop
    starts, less those removed before they are reached; the body removes from
    [v.Auths] at most the entry in hand, so the list of entries is fixed. *)
Fixpoint refresh_auths (m : mutex_semantics) (recheckPeriod : Z) (k : string)
    (auths : list (string * option EnsuredInfo)) : M (option error) :=
  match auths with
  | [] => ret None
  | (i, auth) :: rest =>
      match auth with
      | Some a =>
          now <- time_Now ;;
          if time_Before (time_Add (LastEnsuredDate a) recheckPeriod) now
          then deleteAuthInfo m k i
          else ret tt
      | None => ret tt
      end ;;;
      err <- setImagePullInfo m k i auth ;;
      match err with
      | Some e => ret (Some e)
      | None => refresh_auths m recheckPeriod k rest
      end
  end.

(** The outer loop over the records. *)
Fixpoint refresh_records (m : mutex_semantics) (recheckPeriod : Z)
    (records : list (string * ImagePullInfo)) : M (option error) :=
  match records with
  | [] => ret None
  | (k, v) :: rest =>
      err <- refresh_auths m recheckPeriod k (map_to_list (Auths v)) ;;
      match err with
      | Some e => ret (Some e)
      | None => refresh_records m recheckPeriod rest
      end
  end.

(** The mutex locked on entry is a local variable, new at each call.  Go
    leaves the order of [range] over a map open; [map_to_list] fixes one. *)
Definition refreshImageManagerCache (m : mutex_semantics) (recheck : bool)
    (recheckPeriod : Z) : M (option error) :=
  fun c o =>
    match Mutex_Lock m (0 : Mutex) with
    | None => Blocked c o
    | Some _ =>
        if recheck && bool_decide (recheckPeriod = 0%Z) then Done None c o
        else refresh_records m recheckPeriod (map_to_list (default ∅ (cache c))) c o
    end.

(** [newImageManagerCache]: the loop that loads the given references. *)
Fixpoint load_each (m : mutex_semantics) (imageRefs : list string) : M bool :=
  match imageRefs with
  | [] => ret true
  | imageRef :: rest =>
      err <- loadImageManagerCache m imageRef ;;
      match err with
      | Some _ => ret false
      | None => load_each m rest
      end
  end.

(** [Done true c o]: the new cache [c] is returned; [Done false _ o]: nil is. *)
Definition newImageManagerCache (m : mutex_semantics) (rootDir : string)
    (imageRefs : list string) (o : OS) : outcome bool :=
  load_each m imageRefs
    {| lock := 0; cache := Some ∅;
       imageStateManagerPath := filepath_Join rootDir imageManagerstateFileName |} o.

(** ** Observing an outcome *)

Definition cache_of {A} (x : outcome A) : imageManagerCache :=
  match x with
  | Done _ c _ | Blocked c _ | Panicked c _ => c
  end.

Definition os_of {A} (x : outcome A) : OS :=
  match x with
  | Done _ _ o | Blocked _ o | Panicked _ o => o
  end.

(** The value handed back to the caller, if the call returns at all. *)
Definition returned {A} (x : outcome A) : option A :=
  match x with
  | Done a _ _ => Some a
  | _ => None
  end.

Definition blocked {A} (x : outcome A) : bool :=
  match x with
  | Blocked _ _ => true
  | _ => false
  end.

(** The next call, made where the previous one returned. *)
Definition after {A B} (x : outcome A) (next : M B) : outcome B :=
  match x with
  | Done _ c o => next c o
  | Blocked c o => Blocked c o
  | Panicked c o => Panicked c o
  end.

(** The system calls made between [o] and [o']. *)
Definition new_calls (o o' : OS) : list syscall :=
  drop (length (calls o)) (calls o').

Definition record_path (c : imageManagerCache) (imageRef : string) : string :=
  filepath_Join (imageStateManagerPath c) imageRef.

(** [reads_only o o']: the system went from [o] to [o'] by calls of
    [os.Stat] and [os.ReadFile] alone. *)
Inductive reads_only (o : OS) : OS → Prop :=
| reads_none : reads_only o o
| reads_stat o' path : reads_only o o' → reads_only o (log_call (SysStat path) o')
| reads_file o' path : reads_only o o' → reads_only o (log_call (SysReadFile path) o').

Definition is_read (ev : syscall) : bool :=
  match ev with
  | SysStat _ | SysReadFile _ => true
  | _ => false
  end.

(** [c.cache[imageRef].Auths[hash]]: nil when the record or the hash is
    missing, or when the pointer stored under the hash is nil. *)
Definition auth_of (imageRef hash : string) (c : imageManagerCache) : option EnsuredInfo :=
  match cache_lookup imageRef c with
  | Some info =>
      match Auths info !! hash with
      | Some authInfo => authInfo
      | None => None
      end
  | None => None
  end.

(** A cache at rest: the map is allocated and no mutex is held, neither
    [c.lock] nor the [mux] of a record. *)
Definition quiescent (c : imageManagerCache) : Prop :=
  lock c = 0
  ∧ ∃ cm, cache c = Some cm ∧ ∀ imageRef info, cm !! imageRef = Some info → mux info = 0.

(** A call keeps the cache at rest: it does not panic, and when it returns
    every mutex is free again. *)
Definition keeps_quiescent {A} (x : outcome A) : Prop :=
  match x with
  | Done _ c _ => quiescent c
  | Blocked _ _ => True
  | Panicked _ _ => False
  end.

(** A reference [newImageManagerCache] can load: [os.Stat] of its path does
    not fail, and there is no file, or the file can be read and decodes.  (The
    empty reference is never read.) *)
Definition loadable (o : OS) (dir imageRef : string) : Prop :=
  fault o NStat (filepath_Join dir imageRef) = None
  ∧ (imageRef = EmptyString
     ∨ files o !! filepath_Join dir imageRef = None
     ∨ (fault o NReadFile (filepath_Join dir imageRef) = None
        ∧ ∃ a perm, files o !! filepath_Join dir imageRef = Some (File (JSONDoc a) perm))).

(** The record decoded from the file of a reference, if the file decodes. *)
Definition record_on_disk (o : OS) (dir imageRef : string) : option ImagePullInfo :=
  match files o !! filepath_Join dir imageRef with
  | Some (File (JSONDoc a) _) => Some {| mux := 0; Auths := a |}
  | _ => None
  end.

(** ** A node used in the examples *)

Module Sample.

Definition rootDir : string := "/var/lib/kubelet".
Definition stateDir : string := "/var/lib/kubelet/image_state_manager".
Definition img_a : string := "/var/lib/kubelet/image_state_manager/img-a".

Definition hour : Z := 3600 * 10 ^ 9.
Definition now : Z := 1700000000 * 10 ^ 9.

Definition fresh : EnsuredInfo := {| Ensured := true; LastEnsuredDate := now |}.
Definition stale : EnsuredInfo :=
  {| Ensured := true; LastEnsuredDate := now - 2 * hour |}.

Definition no_fault : sysname → string → option errno := fun _ _ => None.

(** The state directory exists and is empty. *)
Definition empty_disk : OS :=
  {| files := {[ stateDir := Dir ]}; fault := no_fault; calls := [];
     clock := now; umask := octal 0 2 2 |}.

(** The state directory holds one file, for ["img-a"]. *)
Definition disk_with (data : bytes) : OS :=
  {| files := {[ stateDir := Dir; img_a := File data (octal 6 4 4) ]};
     fault := no_fault; calls := []; clock := now; umask := octal 0 2 2 |}.

(** The state directory cannot be reached: every call fails with [EACCES]. *)
Definition unreadable_dir : OS :=
  {| files := {[ stateDir := Dir ]};
     fault := fun _ _ => Some EACCES; calls := [];
     clock := now; umask := octal 0 2 2 |}.

(** The file of ["img-a"] is there and cannot be removed. *)
Definition undeletable (data : bytes) : OS :=
  {| files := {[ stateDir := Dir; img_a := File data (octal 6 4 4) ]};
     fault := fun s p => match s with NRemove => Some EACCES | _ => None end;
     calls := []; clock := now; umask := octal 0 2 2 |}.

Definition empty_cache : imageManagerCache :=
  {| lock := 0; cache := Some ∅; imageStateManagerPath := stateDir |}.

Definition cache_with (info : ImagePullInfo) : imageManagerCache :=
  {| lock := 0; cache := Some {[ "img-a" := info ]};
     imageStateManagerPath := stateDir |}.

Definition record (auths : gmap string (option EnsuredInfo)) : ImagePullInfo :=
  {| mux := 0; Auths := auths |}.

End Sample.

(** ** Where the methods stop under Go's mutexes *)

Section SelfDeadlock.

Variables (c : imageManagerCache) (o : OS).
Hypothesis lock_free : lock c = 0.

(** [storeImageManagerCache] locks [c.lock] and calls [getImagePullInfo],
    which locks it again. *)
Lemma storeImageManagerCache_never_returns imageRef :
  storeImageManagerCache GoMutex imageRef c o = Blocked (set_lock 1 c) o.
Proof.
  unfold storeImageManagerCache, with_c_lock, bind, c_lock_Lock.
  rewrite lock_free. reflexivity.
Qed.

(** [setImagePullInfo] calls [storeImageManagerCache] with [c.lock] held:
    the record is put in memory and nothing reaches the disk. *)
Lemma setImagePullInfo_never_returns imageRef hash data :
  setImagePullInfo GoMutex imageRef hash data c o =
  Blocked (set_cache (Some (<[imageRef := {| mux := 0; Auths := {[ hash := data ]} |}]>
                             (default ∅ (cache c)))) (set_lock 1 c)) o.
Proof.
  unfold setImagePullInfo, with_c_lock, bind, c_lock_Lock.
  rewrite lock_free. reflexivity.
Qed.

(** [getImagePullInfo] holds [c.lock] when [loadImageManagerCache] locks it
    to read a file that exists. *)
Lemma getImagePullInfo_blocks_on_file imageRef :
  imageRef ≠ EmptyString →
  fault o NStat (record_path c imageRef) = None →
  is_Some (files o !! record_path c imageRef) →
  getImagePullInfo GoMutex imageRef c o =
  Blocked (set_lock 1 c) (log_call (SysStat (record_path c imageRef)) o).
Proof.
  intros Hne Hf [n Hn].
  unfold getImagePullInfo, with_c_lock, bind, c_lock_Lock.
  rewrite lock_free. cbn [Mutex_Lock].
  unfold loadImageManagerCache, bind, sys, os_Stat. cbn.
  fold (record_path c imageRef). rewrite Hf, Hn.
  destruct (decide (imageRef = EmptyString)) as [|_]; [done|].
  reflexivity.
Qed.

End SelfDeadlock.

(** ** Deleting a record *)

(** Under either mutex, a method that takes a free [c.lock] holds it once. *)
Lemma Mutex_Lock_free m : Mutex_Lock m 0 = Some 1.
Proof. by destruct m. Qed.

(** What [loadImageManagerCache] does to a file that is there, can be read
    and decodes: the record in memory becomes the one decoded. *)
Lemma loadImageManagerCache_decoded m c o imageRef cm a perm :
  lock c = 0 →
  cache c = Some cm →
  imageRef ≠ EmptyString →
  fault o NStat (record_path c imageRef) = None →
  fault o NReadFile (record_path c imageRef) = None →
  files o !! record_path c imageRef = Some (File (JSONDoc a) perm) →
  loadImageManagerCache m imageRef c o =
  Done None (set_cache (Some (<[imageRef := {| mux := 0; Auths := a |}]> cm)) c)
       (log_call (SysReadFile (record_path c imageRef))
          (log_call (SysStat (record_path c imageRef)) o)).
Proof.
  intros Hl Hc Hne Hs Hr Hf.
  destruct c as [l cc p]; unfold record_path in *; cbn in *; subst.
  unfold loadImageManagerCache, with_c_lock, bind, sys, os_Stat, c_lock_Lock. cbn.
  rewrite Hs, Hf.
  destruct (decide (imageRef = EmptyString)) as [|_]; [done|].
  rewrite Mutex_Lock_free. unfold os_ReadFile. cbn. by rewrite Hr, Hf.
Qed.

(** C10, as the code has it. Deleting a record is not atomic when the
    removal fails: for every image reference present in memory, if
    [os.Remove] fails with an error other than "does not exist",
    [deleteImagePullInfo] returns that error, the record is already gone from
    memory and the disk is as it was; a later [loadImageManagerCache] of the
    same reference puts the record still on disk back in memory. *)
Theorem deleteImagePullInfo_not_atomic_on_error m c o imageRef info e :
  lock c = 0 →
  cache_lookup imageRef c = Some info →
  fault o NRemove (record_path c imageRef) = Some e →
  e ≠ ENOENT →
  let res := deleteImagePullInfo m imageRef c o in
  returned res = Some (Some (PathError e))
  ∧ cache_lookup imageRef (cache_of res) = None
  ∧ files (os_of res) = files o
  ∧ (∀ a perm,
       imageRef ≠ EmptyString →
       fault o NStat (record_path c imageRef) = None →
       fault o NReadFile (record_path c imageRef) = None →
       files o !! record_path c imageRef = Some (File (JSONDoc a) perm) →
       let again := after res (loadImageManagerCache m imageRef) in
       returned again = Some None
       ∧ cache_lookup imageRef (cache_of again) = Some {| mux := 0; Auths := a |}).
Proof.
  intros Hl Hin Hf _.
  unfold cache_lookup in Hin. destruct (cache c) as [cm|] eqn:Hc; [|done].
  assert (deleteImagePullInfo m imageRef c o =
          Done (Some (PathError e)) (set_cache (Some (delete imageRef cm)) c)
               (log_call (SysRemove (record_path c imageRef)) o)) as ->.
  { destruct c as [l cc p]; unfold record_path in *; cbn in *; subst.
    unfold deleteImagePullInfo, with_c_lock, bind, c_lock_Lock, sys, os_Remove. cbn.
    rewrite Mutex_Lock_free. cbn. by rewrite Hf. }
  cbn. split; [done|].
  split; [unfold cache_lookup; cbn; apply lookup_delete_eq|].
  split; [done|].
  intros a perm Hne Hs Hr Hfile.
  rewrite (loadImageManagerCache_decoded m _ _ imageRef (delete imageRef cm) a perm);
    try done.
  cbn. split; [done|]. unfold cache_lookup; cbn. by rewrite lookup_insert_eq.
Qed.

Lemma deleteImagePullInfo_not_atomic_on_error_witness :
  let c := Sample.cache_with (Sample.record {[ "hash1" := Some Sample.fresh ]}) in
  let o := Sample.undeletable (JSONDoc {[ "hash1" := Some Sample.stale ]}) in
  let res := deleteImagePullInfo GoMutex "img-a" c o in
  fault o NRemove (record_path c "img-a") = Some EACCES
  ∧ returned res = Some (Some (PathError EACCES))
  ∧ cache_lookup "img-a" (cache_of res) = None
  ∧ files (os_of res) = files o
  ∧ cache_lookup "img-a" (cache_of (after res (loadImageManagerCache GoMutex "img-a")))
    = Some (Sample.record {[ "hash1" := Some Sample.stale ]}).
Proof.
  intros c o res.
  destruct (deleteImagePullInfo_not_atomic_on_error GoMutex c o "img-a"
              (Sample.record {[ "hash1" := Some Sample.fresh ]}) EACCES)
    as (Hret & Hgone & Hdisk & Hagain);
    [reflexivity | vm_compute; reflexivity | reflexivity | discriminate |].
  split; [reflexivity|].
  split; [exact Hret|].
  split; [exact Hgone|].
  split; [exact Hdisk|].
  destruct (Hagain {[ "hash1" := Some Sample.stale ]} (octal 6 4 4)) as [_ Hrec];
    [discriminate | reflexivity | reflexivity | vm_compute; reflexivity |].
  exact Hrec.
Defined.

(** C10, as the claim has it, fails in its last clause: after the failed
    removal a read through [getImagePullInfo] or [getAuthInfo] does not bring
    the record back.  The file being still on disk, the read stops where
    [loadImageManagerCache] locks the [c.lock] that [getImagePullInfo] holds,
    and the record stays out of memory. *)
Lemma read_after_failed_delete_does_not_rehydrate :
  let c := Sample.cache_with (Sample.record {[ "hash1" := Some Sample.fresh ]}) in
  let o := Sample.undeletable (JSONDoc {[ "hash1" := Some Sample.stale ]}) in
  let res := deleteImagePullInfo GoMutex "img-a" c o in
  let read := after res (getImagePullInfo GoMutex "img-a") in
  let read' := after res (getAuthInfo GoMutex "img-a" "hash1") in
  returned res = Some (Some (PathError EACCES))
  ∧ files (os_of res) !! Sample.img_a
    = Some (File (JSONDoc {[ "hash1" := Some Sample.stale ]}) (octal 6 4 4))
  ∧ blocked read = true
  ∧ returned read = None
  ∧ cache_lookup "img-a" (cache_of read) = None
  ∧ blocked read' = true
  ∧ returned read' = None
  ∧ cache_lookup "img-a" (cache_of read') = None.
Proof. repeat split; vm_compute; reflexivity. Qed.

(** ** Hydration *)

(** C7, as the code has it. A decode failure is surfaced by
    [loadImageManagerCache]: for every image reference other than the empty
    one whose file holds malformed JSON, it returns the decoding error, and
    the cache in memory is as it was.  ([getImagePullInfo] and [getAuthInfo]
    return no error value.) *)
Theorem loadImageManagerCache_surfaces_decode_error m c o imageRef raw perm :
  lock c = 0 →
  imageRef ≠ EmptyString →
  fault o NStat (record_path c imageRef) = None →
  fault o NReadFile (record_path c imageRef) = None →
  files o !! record_path c imageRef = Some (File (NotJSON raw) perm) →
  loadImageManagerCache m imageRef c o =
  Done (Some SyntaxError) c
       (log_call (SysReadFile (record_path c imageRef))
          (log_call (SysStat (record_path c imageRef)) o)).
Proof.
  intros Hl Hne Hs Hr Hf.
  destruct c as [l cc p]; unfold record_path in *; cbn in *; subst.
  unfold loadImageManagerCache, with_c_lock, bind, sys, os_Stat, c_lock_Lock. cbn.
  rewrite Hs, Hf.
  destruct (decide (imageRef = EmptyString)) as [|_]; [done|].
  rewrite Mutex_Lock_free. unfold os_ReadFile. cbn. by rewrite Hr, Hf.
Qed.

Lemma loadImageManagerCache_surfaces_decode_error_witness :
  let c := Sample.cache_with (Sample.record {[ "hash1" := Some Sample.fresh ]}) in
  let o := Sample.disk_with (NotJSON "{") in
  files o !! record_path c "img-a" = Some (File (NotJSON "{") (octal 6 4 4))
  ∧ returned (loadImageManagerCache GoMutex "img-a" c o) = Some (Some SyntaxError)
  ∧ cache_of (loadImageManagerCache GoMutex "img-a" c o) = c.
Proof.
  intros c o.
  split; [vm_compute; reflexivity|].
  rewrite (loadImageManagerCache_surfaces_decode_error GoMutex c o "img-a" "{" (octal 6 4 4));
    [split; reflexivity | reflexivity | discriminate | reflexivity | reflexivity
    | vm_compute; reflexivity].
Defined.

(** C7, as the claim has it, fails: with malformed JSON on disk
    [getImagePullInfo] and [getAuthInfo] surface no error.  Under Go's mutex
    they do not return; were the nested [Lock] to succeed, they would return
    nil, as they do when there is no file. *)
Lemma getImagePullInfo_drops_decode_error :
  let c := Sample.empty_cache in
  let o := Sample.disk_with (NotJSON "{") in
  returned (loadImageManagerCache GoMutex "img-a" c o) = Some (Some SyntaxError)
  ∧ blocked (getImagePullInfo GoMutex "img-a" c o) = true
  ∧ blocked (getAuthInfo GoMutex "img-a" "hash1" c o) = true
  ∧ returned (getImagePullInfo ReentrantMutex "img-a" c o) = Some None
  ∧ returned (getAuthInfo ReentrantMutex "img-a" "hash1" c o) = Some None
  ∧ returned (getImagePullInfo ReentrantMutex "img-a" c Sample.empty_disk) = Some None.
Proof. repeat split; vm_compute; reflexivity. Qed.

(** C6, as the code has it. Hydration does not look at what is in memory.
    For every image reference present in memory, [loadImageManagerCache]
    replaces its record by the one decoded from the file whenever the
    reference is not empty and the file is there, can be read and decodes,
    and leaves the record as it was otherwise; [getImagePullInfo] returns the
    record in memory, unchanged, when there is no file. *)
Theorem loadImageManagerCache_replaces_resident m c o imageRef info :
  lock c = 0 →
  cache_lookup imageRef c = Some info →
  let path := record_path c imageRef in
  cache_lookup imageRef (cache_of (loadImageManagerCache m imageRef c o)) =
    Some (match fault o NStat path, fault o NReadFile path, files o !! path with
          | None, None, Some (File (JSONDoc a) _) =>
              if decide (imageRef = EmptyString) then info
              else {| mux := 0; Auths := a |}
          | _, _, _ => info
          end)
  ∧ (files o !! path = None →
     returned (getImagePullInfo m imageRef c o) = Some (Some info)
     ∧ cache_of (getImagePullInfo m imageRef c o) = c).
Proof.
  intros Hl Hin path. subst path.
  destruct c as [l cc p]; unfold record_path, cache_lookup in *; cbn in *; subst.
  destruct cc as [cm|]; [|done].
  split.
  - unfold loadImageManagerCache, with_c_lock, bind, sys, os_Stat, c_lock_Lock. cbn.
    destruct (fault o NStat _) as [e|] eqn:Hs; cbn.
    { by destruct e. }
    destruct (files o !! _) as [n|] eqn:Hf; cbn.
    2:{ by destruct (fault o NReadFile _). }
    destruct (decide (imageRef = EmptyString)) as [->|Hne]; cbn.
    { destruct (fault o NReadFile _); [done|]. by destruct n as [[]|]. }
    rewrite Mutex_Lock_free. unfold os_ReadFile. cbn. rewrite Hf.
    destruct (fault o NReadFile _) as [e|]; cbn; [done|].
    destruct n as [[a|raw] perm|]; cbn; [|done|done].
    by rewrite lookup_insert_eq.
  - intros Hf.
    unfold getImagePullInfo, loadImageManagerCache, with_c_lock, bind, sys, os_Stat,
      c_lock_Lock. cbn.
    rewrite Mutex_Lock_free. cbn. rewrite Hf.
    destruct (fault o NStat _) as [e|]; cbn.
    + destruct e; cbn; by rewrite Hin.
    + by rewrite Hin.
Qed.

Lemma loadImageManagerCache_replaces_resident_witness :
  let c := Sample.cache_with (Sample.record {[ "hash1" := Some Sample.fresh ]}) in
  let o := Sample.disk_with (JSONDoc {[ "hash2" := Some Sample.stale ]}) in
  cache_lookup "img-a" c = Some (Sample.record {[ "hash1" := Some Sample.fresh ]})
  ∧ cache_lookup "img-a" (cache_of (loadImageManagerCache GoMutex "img-a" c o))
    = Some (Sample.record {[ "hash2" := Some Sample.stale ]})
  ∧ returned (getImagePullInfo GoMutex "img-a" c Sample.empty_disk)
    = Some (Some (Sample.record {[ "hash1" := Some Sample.fresh ]})).
Proof.
  intros c o.
  split; [vm_compute; reflexivity|].
  split.
  - destruct (loadImageManagerCache_replaces_resident GoMutex c o "img-a"
                (Sample.record {[ "hash1" := Some Sample.fresh ]})) as [Hload _];
      [reflexivity | vm_compute; reflexivity |].
    rewrite Hload. vm_compute. reflexivity.
  - destruct (loadImageManagerCache_replaces_resident GoMutex c Sample.empty_disk "img-a"
                (Sample.record {[ "hash1" := Some Sample.fresh ]})) as [_ Hget];
      [reflexivity | vm_compute; reflexivity |].
    destruct Hget as [Hret _]; [vm_compute; reflexivity|].
    exact Hret.
Defined.

(** C6, as the claim has it, fails: a record present in memory is replaced
    by what the file holds. *)
Lemma hydration_overwrites_resident_record :
  let c := Sample.cache_with (Sample.record {[ "hash1" := Some Sample.fresh ]}) in
  let o := Sample.disk_with (JSONDoc {[ "hash2" := Some Sample.stale ]}) in
  let res := loadImageManagerCache GoMutex "img-a" c o in
  cache_lookup "img-a" c = Some (Sample.record {[ "hash1" := Some Sample.fresh ]})
  ∧ returned res = Some None
  ∧ cache_lookup "img-a" (cache_of res)
    = Some (Sample.record {[ "hash2" := Some Sample.stale ]})
  ∧ cache_lookup "img-a" (cache_of res) ≠ cache_lookup "img-a" c
  ∧ blocked (getImagePullInfo GoMutex "img-a" c o) = true
  ∧ returned (getImagePullInfo ReentrantMutex "img-a" c o)
    = Some (Some (Sample.record {[ "hash2" := Some Sample.stale ]})).
Proof.
  repeat split; try (vm_compute; reflexivity).
  vm_compute. discriminate.
Qed.

(** ** Writing a record to disk *)

Lemma reads_only_spec o o' :
  reads_only o o' →
  files o' = files o ∧ fault o' = fault o ∧ umask o' = umask o
  ∧ ∃ l, calls o' = calls o ++ l ∧ forallb is_read l = true.
Proof.
  induction 1 as [|o' path _ (Hf & Hfa & Hu & l & Hl & Hr)|o' path _ (Hf & Hfa & Hu & l & Hl & Hr)].
  - repeat split; try done. exists []. by rewrite app_nil_r.
  - repeat split; try done. exists (l ++ [SysStat path]). cbn.
    rewrite Hl, <- app_assoc, forallb_app, Hr. done.
  - repeat split; try done. exists (l ++ [SysReadFile path]). cbn.
    rewrite Hl, <- app_assoc, forallb_app, Hr. done.
Qed.

(** [loadImageManagerCache] only reads, and leaves the path of the cache
    directory alone. *)
Lemma loadImageManagerCache_reads_only m imageRef c o :
  reads_only o (os_of (loadImageManagerCache m imageRef c o))
  ∧ imageStateManagerPath (cache_of (loadImageManagerCache m imageRef c o))
    = imageStateManagerPath c.
Proof.
  destruct c as [l cc p].
  unfold loadImageManagerCache, with_c_lock, bind, sys, os_Stat, c_lock_Lock,
    c_lock_Unlock, cache_assign, os_ReadFile, utiljson_Unmarshal. cbn.
  destruct (fault o NStat _) as [e|]; cbn.
  { destruct e; cbn; split; try done; by repeat constructor. }
  destruct (files o !! _) as [n|] eqn:Hf; cbn; [|split; try done; by repeat constructor].
  destruct (decide (imageRef = EmptyString)); cbn; [split; try done; by repeat constructor|].
  destruct (Mutex_Lock m l) as [l'|]; cbn; [|split; try done; by repeat constructor].
  rewrite Hf.
  destruct (fault o NReadFile _) as [e|]; cbn.
  { destruct l'; cbn; split; try done; by repeat constructor. }
  destruct n as [[a|raw] perm|]; cbn.
  - destruct cc; cbn; [|split; try done; by repeat constructor].
    destruct l'; cbn; split; try done; by repeat constructor.
  - destruct l'; cbn; split; try done; by repeat constructor.
  - destruct l'; cbn; split; try done; by repeat constructor.
Qed.

Lemma getImagePullInfo_reads_only m imageRef c o :
  reads_only o (os_of (getImagePullInfo m imageRef c o))
  ∧ imageStateManagerPath (cache_of (getImagePullInfo m imageRef c o))
    = imageStateManagerPath c.
Proof.
  unfold getImagePullInfo, with_c_lock, bind, c_lock_Lock, c_lock_Unlock.
  destruct (Mutex_Lock m (lock c)) as [l'|]; cbn; [|split; try done; constructor].
  destruct (loadImageManagerCache_reads_only m imageRef (set_lock l' c) o) as [Hr Hp].
  destruct (loadImageManagerCache m imageRef (set_lock l' c) o) as [a c1 o1|c1 o1|c1 o1];
    cbn in *; try done.
  by destruct (Mutex_Unlock (lock c1)).
Qed.


(** ** Deleting a record whose file is missing *)

(** C5, as the code has it. [deleteImagePullInfo] returns the error of
    [os.Remove] as it is: for every image reference with no file on disk it
    returns the "does not exist" error, the first time and again the second,
    having removed the reference from memory and left the disk alone. *)
Theorem deleteImagePullInfo_missing_file m c o imageRef :
  lock c = 0 →
  fault o NRemove (record_path c imageRef) = None →
  files o !! record_path c imageRef = None →
  let first := deleteImagePullInfo m imageRef c o in
  let second := after first (deleteImagePullInfo m imageRef) in
  returned first = Some (Some (PathError ENOENT))
  ∧ returned second = Some (Some (PathError ENOENT))
  ∧ os_IsNotExist (PathError ENOENT) = true
  ∧ cache_lookup imageRef (cache_of first) = None
  ∧ files (os_of second) = files o.
Proof.
  intros Hl Hf Hn.
  destruct c as [l cc p]; unfold record_path in *; cbn in *; subst.
  unfold deleteImagePullInfo, with_c_lock, bind, c_lock_Lock, sys, os_Remove, cache_lookup.
  cbn. rewrite Mutex_Lock_free.
  destruct cc as [cm|]; cbn; rewrite Hf, Hn; cbn; rewrite Mutex_Lock_free; cbn;
    rewrite Hf, Hn; cbn; repeat split; try done.
  apply lookup_delete_eq.
Qed.

Lemma deleteImagePullInfo_missing_file_witness :
  let c := Sample.cache_with (Sample.record {[ "hash1" := Some Sample.fresh ]}) in
  let first := deleteImagePullInfo GoMutex "img-a" c Sample.empty_disk in
  files Sample.empty_disk !! record_path c "img-a" = None
  ∧ returned first = Some (Some (PathError ENOENT))
  ∧ returned (after first (deleteImagePullInfo GoMutex "img-a"))
    = Some (Some (PathError ENOENT))
  ∧ cache_lookup "img-a" (cache_of first) = None.
Proof.
  intros c first.
  destruct (deleteImagePullInfo_missing_file GoMutex c Sample.empty_disk "img-a")
    as (H1 & H2 & _ & H4 & _);
    [reflexivity | reflexivity | vm_compute; reflexivity |].
  split; [vm_compute; reflexivity|].
  split; [exact H1|]. split; [exact H2|]. exact H4.
Defined.

(** C5, as the claim has it, fails: with no file for ["img-a"],
    [deleteImagePullInfo] returns an error, and so does a second call. *)
Lemma deleteImagePullInfo_not_idempotent :
  let first := deleteImagePullInfo GoMutex "img-a" Sample.empty_cache Sample.empty_disk in
  let second := after first (deleteImagePullInfo GoMutex "img-a") in
  files Sample.empty_disk !! Sample.img_a = None
  ∧ returned first = Some (Some (PathError ENOENT))
  ∧ returned first ≠ Some None
  ∧ returned second = Some (Some (PathError ENOENT))
  ∧ returned second ≠ Some None.
Proof. repeat split; try (vm_compute; reflexivity); vm_compute; discriminate. Qed.

(** ** The empty image reference *)

Lemma filepath_Join_empty dir : filepath_Join dir EmptyString = dir.
Proof. unfold filepath_Join. by destruct (decide (EmptyString = EmptyString)). Qed.

(** With the empty reference [storeImageManagerCache] stops, or returns,
    before it writes. *)
Lemma storeImageManagerCache_empty_imageRef m c o :
  files (os_of (storeImageManagerCache m EmptyString c o)) = files o.
Proof.
  unfold storeImageManagerCache, with_c_lock, bind, c_lock_Lock, c_lock_Unlock.
  destruct (Mutex_Lock m (lock c)) as [l'|]; cbn; [|done].
  destruct (getImagePullInfo_reads_only m EmptyString (set_lock l' c) o) as [Hr _].
  destruct (getImagePullInfo m EmptyString (set_lock l' c) o) as [info c1 o1|c1 o1|c1 o1];
    cbn in *; apply reads_only_spec in Hr as (Hf & _); [|done|done].
  destruct info as [info|]; cbn;
    [destruct (decide (EmptyString = EmptyString)); [cbn|done]|];
    by destruct (Mutex_Unlock (lock c1)).
Qed.

(** C8, as the code has it. The empty image reference creates no file.
    [loadImageManagerCache("")] makes one system call, an [os.Stat] of the
    cache directory; it leaves memory and disk as they were, and returns no
    error unless that call fails with an error other than "does not exist",
    which it returns.  [storeImageManagerCache("")] and
    [setImagePullInfo("", h, e)] leave the files as they were. *)
Theorem loadImageManagerCache_empty_imageRef m c o hash data :
  let res := loadImageManagerCache m EmptyString c o in
  cache_of res = c
  ∧ files (os_of res) = files o
  ∧ new_calls o (os_of res) = [SysStat (imageStateManagerPath c)]
  ∧ returned res
    = Some (match fault o NStat (imageStateManagerPath c) with
            | Some e => if os_IsNotExist (PathError e) then None else Some (PathError e)
            | None => None
            end)
  ∧ files (os_of (storeImageManagerCache m EmptyString c o)) = files o
  ∧ files (os_of (setImagePullInfo m EmptyString hash data c o)) = files o.
Proof.
  intros res. subst res.
  assert (∀ o' ev, calls o' = calls o ++ [ev] → new_calls o o' = [ev]) as Hnew.
  { intros o' ev Ho'. unfold new_calls. by rewrite Ho', drop_app_length. }
  split; [|split; [|split; [|split; [|split]]]].
  1-4: unfold loadImageManagerCache, bind, sys, os_Stat; rewrite filepath_Join_empty; cbn;
    destruct (fault o NStat _) as [e|]; cbn;
    [destruct e; cbn; try done; by apply Hnew
    |destruct (files o !! _); cbn; try done; by apply Hnew].
  - apply storeImageManagerCache_empty_imageRef.
  - unfold setImagePullInfo, with_c_lock, bind, c_lock_Lock, c_lock_Unlock.
    destruct (Mutex_Lock m (lock c)) as [l'|]; cbn; [|done].
    match goal with
    | |- context [storeImageManagerCache m EmptyString ?c1 o] =>
        pose proof (storeImageManagerCache_empty_imageRef m c1 o) as Hs;
        destruct (storeImageManagerCache m EmptyString c1 o) as [r c2 o2|c2 o2|c2 o2]
    end; cbn in *; try done.
    by destruct (Mutex_Unlock (lock c2)).
Qed.

(** C8, as the claim has it, fails: [loadImageManagerCache("")] calls
    [os.Stat] on the cache directory and returns the error of that call when
    it is not "does not exist"; [storeImageManagerCache("")] and
    [setImagePullInfo("", h, e)] do not return under Go's mutex. *)
Lemma empty_imageRef_touches_disk :
  new_calls Sample.empty_disk
    (os_of (loadImageManagerCache GoMutex EmptyString Sample.empty_cache Sample.empty_disk))
  = [SysStat Sample.stateDir]
  ∧ returned (loadImageManagerCache GoMutex EmptyString Sample.empty_cache Sample.unreadable_dir)
    = Some (Some (PathError EACCES))
  ∧ blocked (storeImageManagerCache GoMutex EmptyString Sample.empty_cache Sample.empty_disk)
    = true
  ∧ blocked (setImagePullInfo GoMutex EmptyString "hash1" (Some Sample.fresh)
               Sample.empty_cache Sample.empty_disk) = true.
Proof. repeat split; vm_compute; reflexivity. Qed.

(** ** Setting an entry *)

(** Let the nested [Lock] through, and an entry set for a reference whose
    file is already there is lost: [storeImageManagerCache] reloads the file
    over the record just put in memory, and writes the file back as it was. *)
Lemma setImagePullInfo_loses_to_file c o imageRef hash data cm a perm :
  lock c = 0 →
  cache c = Some cm →
  imageRef ≠ EmptyString →
  fault o NStat (record_path c imageRef) = None →
  fault o NReadFile (record_path c imageRef) = None →
  fault o NWriteFile (record_path c imageRef) = None →
  files o !! record_path c imageRef = Some (File (JSONDoc a) perm) →
  let res := setImagePullInfo ReentrantMutex imageRef hash data c o in
  returned res = Some None
  ∧ cache_lookup imageRef (cache_of res) = Some {| mux := 0; Auths := a |}
  ∧ files (os_of res) = files o.
Proof.
  intros Hl Hc Hne Hs Hr Hw Hf.
  destruct c as [l cc p]; unfold record_path in *; cbn in *; subst.
  unfold setImagePullInfo, storeImageManagerCache, getImagePullInfo,
    loadImageManagerCache, with_c_lock, bind, c_lock_Lock, sys, os_Stat. cbn.
  rewrite Hs, Hf. cbn.
  destruct (decide (imageRef = EmptyString)) as [|_]; [done|].
  unfold os_ReadFile. cbn. rewrite Hr, Hf. cbn.
  unfold cache_lookup. cbn. rewrite lookup_insert_eq. cbn.
  unfold os_WriteFile. cbn. rewrite Hw, Hf. cbn.
  rewrite lookup_insert_eq. repeat split; try done.
  by apply insert_id.
Qed.

(** C3. The code at the claim's input.  Under Go's mutex
    [setImagePullInfo] does not return and writes nothing, so a cache built
    anew on the same directory finds no entry.  Under [ReentrantMutex] it
    returns, and when a file is already there for the reference the entry read
    back is the one of the file, not the one set. *)
Lemma setImagePullInfo_then_getAuthInfo :
  let set := setImagePullInfo GoMutex "img-a" "hash1" (Some Sample.fresh)
               Sample.empty_cache Sample.empty_disk in
  let o := Sample.disk_with (JSONDoc {[ "hash1" := Some Sample.stale ]}) in
  let set' := setImagePullInfo ReentrantMutex "img-a" "hash1" (Some Sample.fresh)
                Sample.empty_cache o in
  blocked set = true
  ∧ files (os_of set) = files Sample.empty_disk
  ∧ returned (after (newImageManagerCache GoMutex Sample.rootDir ["img-a"] (os_of set))
                (getAuthInfo GoMutex "img-a" "hash1")) = Some None
  ∧ returned set' = Some None
  ∧ returned (after set' (getAuthInfo ReentrantMutex "img-a" "hash1"))
    = Some (Some Sample.stale)
  ∧ Sample.stale ≠ Sample.fresh.
Proof.
  repeat split; try (vm_compute; reflexivity).
  vm_compute. discriminate.
Qed.

(** C4. The code at the claim's input.  Under Go's mutex the first
    [setImagePullInfo] does not return.  Under [ReentrantMutex] the second
    call reloads the file written by the first over the record it has just
    put in memory: afterwards the first hash is still there and the second is
    not. *)
Lemma setImagePullInfo_twice :
  let set1 m := setImagePullInfo m "img-a" "hash1" (Some Sample.stale)
                  Sample.empty_cache Sample.empty_disk in
  let set2 m := after (set1 m) (setImagePullInfo m "img-a" "hash2" (Some Sample.fresh)) in
  blocked (set1 GoMutex) = true
  ∧ returned (set2 ReentrantMutex) = Some None
  ∧ returned (after (set2 ReentrantMutex) (getAuthInfo ReentrantMutex "img-a" "hash1"))
    = Some (Some Sample.stale)
  ∧ returned (after (set2 ReentrantMutex) (getAuthInfo ReentrantMutex "img-a" "hash2"))
    = Some None.
Proof. repeat split; vm_compute; reflexivity. Qed.

(** ** The refresh sweep *)

(** C2, as the code has it. A sweep with [recheck] set and a period of
    zero is a no-op: it returns no error at once, with memory, disk and the
    list of system calls as they were.  With [recheck] unset the sweep is not
    skipped, whatever the period: it goes over the entries of the cache. *)
Theorem refreshImageManagerCache_zero_period m c o :
  refreshImageManagerCache m true 0 c o = Done None c o
  ∧ ∀ recheckPeriod,
      refreshImageManagerCache m false recheckPeriod c o
      = refresh_records m recheckPeriod (map_to_list (default ∅ (cache c))) c o.
Proof. unfold refreshImageManagerCache. by destruct m. Qed.

(** [deleteAuthInfo] gives [c.lock] back when it returns, and does not panic
    when it starts with the lock free. *)
Lemma deleteAuthInfo_unlocks c o k i :
  lock c = 0 →
  match deleteAuthInfo GoMutex k i c o with
  | Done _ c' _ => lock c' = 0
  | Blocked _ _ => True
  | Panicked _ _ => False
  end.
Proof.
  intros Hl. destruct c as [l cc p]; cbn in *; subst.
  unfold deleteAuthInfo, with_c_lock, bind, c_lock_Lock, c_lock_Unlock, cache_lookup,
    mux_Lock, mux_Unlock. cbn.
  destruct cc as [cm|]; cbn; [|done].
  destruct (cm !! k) as [info|] eqn:Hk; cbn; [|done].
  destruct (mux info); cbn; [|done].
  by rewrite lookup_alter_eq, lookup_insert_eq.
Qed.

(** Under Go's mutex the sweep stops at the first entry it meets. *)
Lemma refresh_auths_never_returns recheckPeriod k auths c o :
  lock c = 0 →
  auths ≠ [] →
  blocked (refresh_auths GoMutex recheckPeriod k auths c o) = true.
Proof.
  intros Hl Hne. destruct auths as [|[i auth] rest]; [done|].
  cbn [refresh_auths]. unfold bind at 1.
  assert (∀ c1 o1, lock c1 = 0 →
            blocked (bind (setImagePullInfo GoMutex k i auth)
                       (λ err, match err with
                               | Some e => ret (Some e)
                               | None => refresh_auths GoMutex recheckPeriod k rest
                               end) c1 o1) = true) as Hset.
  { intros c1 o1 Hl1. unfold bind. by rewrite setImagePullInfo_never_returns. }
  destruct auth as [a|]; [|by apply Hset].
  unfold bind at 1, time_Now.
  destruct (time_Before _ _); [|by apply Hset].
  pose proof (deleteAuthInfo_unlocks c o k i Hl) as Hd.
  destruct (deleteAuthInfo GoMutex k i c o) as [[] c1 o1|c1 o1|c1 o1]; [|done|done].
  by apply Hset.
Qed.

Lemma refresh_records_never_returns recheckPeriod records c o :
  lock c = 0 →
  Exists (λ kv, Auths kv.2 ≠ ∅) records →
  blocked (refresh_records GoMutex recheckPeriod records c o) = true.
Proof.
  intros Hl.
  assert (∀ k (v : ImagePullInfo) rest, Auths v ≠ ∅ →
            blocked (refresh_records GoMutex recheckPeriod ((k, v) :: rest) c o) = true)
    as Hhead.
  { intros k v rest Hv. cbn [refresh_records]. unfold bind.
    assert (map_to_list (Auths v) ≠ []) as Hne
      by (intros Hnil; by apply map_to_list_empty_iff in Hnil).
    pose proof (refresh_auths_never_returns recheckPeriod k _ c o Hl Hne) as Hb.
    by destruct (refresh_auths _ _ _ _ _ _). }
  induction 1 as [[k v] rest Hv|[k v] rest _ IH].
  - by apply Hhead.
  - destruct (decide (Auths v = ∅)) as [He|Hne]; [|by apply Hhead].
    cbn [refresh_records]. rewrite He, map_to_list_empty. apply IH.
Qed.

(** Whenever the sweep has an entry to look at, it does not return: this is
    so with [recheck] unset, whatever the period, and with [recheck] set and
    a period other than zero. *)
Lemma refreshImageManagerCache_never_returns recheck recheckPeriod c o cm k v :
  lock c = 0 →
  cache c = Some cm →
  cm !! k = Some v →
  Auths v ≠ ∅ →
  recheck = false ∨ recheckPeriod ≠ 0%Z →
  blocked (refreshImageManagerCache GoMutex recheck recheckPeriod c o) = true.
Proof.
  intros Hl Hc Hk Hv Hguard. unfold refreshImageManagerCache. cbn.
  assert (recheck && bool_decide (recheckPeriod = 0%Z) = false) as ->.
  { destruct Hguard as [->|Hp]; [done|]. rewrite bool_decide_eq_false_2; [|done].
    by destruct recheck. }
  rewrite Hc. cbn. apply refresh_records_never_returns; [done|].
  apply Exists_exists. exists (k, v). split; [|done].
  by apply elem_of_map_to_list.
Qed.

(** C1. The code at the claim's input: a cache built from a file whose one
    entry was ensured two periods ago, swept with [recheck] set and a period
    of one hour.  Under Go's mutex the sweep does not return: it removes the
    entry, puts it back through [setImagePullInfo] and stops there, the disk
    untouched.  Under [ReentrantMutex] it returns, and the stale entry is
    still handed out by [getAuthInfo]. *)
Lemma refreshImageManagerCache_keeps_stale_entry :
  let o := Sample.disk_with (JSONDoc {[ "hash1" := Some Sample.stale ]}) in
  let built := newImageManagerCache GoMutex Sample.rootDir ["img-a"] o in
  let swept := after built (refreshImageManagerCache GoMutex true Sample.hour) in
  let swept' := after built (refreshImageManagerCache ReentrantMutex true Sample.hour) in
  returned built = Some true
  ∧ cache_lookup "img-a" (cache_of built)
    = Some (Sample.record {[ "hash1" := Some Sample.stale ]})
  ∧ time_Before (time_Add (LastEnsuredDate Sample.stale) Sample.hour) (clock o) = true
  ∧ blocked swept = true
  ∧ cache_lookup "img-a" (cache_of swept)
    = Some (Sample.record {[ "hash1" := Some Sample.stale ]})
  ∧ files (os_of swept) = files o
  ∧ returned swept' = Some None
  ∧ returned (after swept' (getAuthInfo ReentrantMutex "img-a" "hash1"))
    = Some (Some Sample.stale).
Proof. repeat split; vm_compute; reflexivity. Qed.

(** C2, as the claim has it, fails: one entry, ensured just now, put in
    memory by [setAuthInfo], and a sweep with [recheck] unset.  Under Go's
    mutex the sweep does not return and leaves [c.lock] held, with a period of
    one hour and with a period of zero alike.  Under [ReentrantMutex] it
    returns and has written a file that was not there. *)
Lemma refreshImageManagerCache_sweeps_without_recheck :
  let start := setAuthInfo GoMutex "img-a" "hash1" (Some Sample.fresh)
                 Sample.empty_cache Sample.empty_disk in
  let swept := after start (refreshImageManagerCache GoMutex false Sample.hour) in
  let swept0 := after start (refreshImageManagerCache GoMutex false 0) in
  let swept' := after start (refreshImageManagerCache ReentrantMutex false Sample.hour) in
  returned start = Some tt
  ∧ lock (cache_of start) = 0
  ∧ blocked swept = true
  ∧ lock (cache_of swept) = 1
  ∧ blocked swept0 = true
  ∧ returned swept' = Some None
  ∧ files (os_of start) !! Sample.img_a = None
  ∧ files (os_of swept') !! Sample.img_a
    = Some (File (JSONDoc {[ "hash1" := Some Sample.fresh ]}) (octal 6 4 4)).
Proof. repeat split; vm_compute; reflexivity. Qed.

(** * Further properties of the methods *)

(** ** Reading when there is no file *)

(** With no file at the path, [loadImageManagerCache] makes its [os.Stat]
    and returns; only an error of the call other than "does not exist" is
    passed on. *)
Lemma loadImageManagerCache_no_file m c o imageRef :
  files o !! record_path c imageRef = None →
  loadImageManagerCache m imageRef c o =
  Done (match fault o NStat (record_path c imageRef) with
        | Some e => if os_IsNotExist (PathError e) then None else Some (PathError e)
        | None => None
        end) c (log_call (SysStat (record_path c imageRef)) o).
Proof.
  intros Hf. unfold record_path in *.
  unfold loadImageManagerCache, bind, sys, os_Stat. cbn. rewrite Hf.
  destruct (fault o NStat _) as [e|]; [|done]. by destruct e.
Qed.

Lemma getImagePullInfo_no_file m c o imageRef :
  lock c = 0 →
  files o !! record_path c imageRef = None →
  getImagePullInfo m imageRef c o =
  Done (cache_lookup imageRef c) c (log_call (SysStat (record_path c imageRef)) o).
Proof.
  intros Hl Hf.
  unfold getImagePullInfo, with_c_lock, bind, c_lock_Lock.
  rewrite Hl, Mutex_Lock_free.
  rewrite (loadImageManagerCache_no_file m (set_lock 1 c) o imageRef Hf).
  destruct c as [l cc p]; cbn in *; by subst.
Qed.

Lemma set_mux_free info : mux info = 0 → set_mux 0 info = info.
Proof. destruct info; cbn; by intros ->. Qed.

Lemma getAuthInfo_no_file m c o imageRef hash :
  lock c = 0 →
  files o !! record_path c imageRef = None →
  (∀ info, cache_lookup imageRef c = Some info → mux info = 0) →
  getAuthInfo m imageRef hash c o =
  Done (auth_of imageRef hash c) c (log_call (SysStat (record_path c imageRef)) o).
Proof.
  intros Hl Hf Hm.
  unfold getAuthInfo, bind at 1. rewrite getImagePullInfo_no_file by done.
  unfold auth_of. destruct (cache_lookup imageRef c) as [info|] eqn:Hin; [|done].
  specialize (Hm info eq_refl).
  destruct c as [l cc p]; unfold cache_lookup in *; cbn in *; subst.
  destruct cc as [cm|]; [|done].
  unfold with_c_lock, bind, c_lock_Lock, mux_Lock, mux_Unlock, cache_lookup. cbn.
  rewrite Mutex_Lock_free. cbn. rewrite Hin, Hm, Mutex_Lock_free. cbn.
  rewrite !lookup_insert_eq. cbn.
  rewrite insert_insert_eq. unfold set_mux at 1. cbn.
  destruct info as [mx au]; cbn in *; subst. by rewrite insert_id.
Qed.

(** X1. A read of a reference that has no file on disk answers from memory
    and changes nothing there: [getImagePullInfo] returns the record in
    memory (nil when there is none) and [getAuthInfo] the entry under the
    hash (nil when the record or the hash is missing), each after one
    [os.Stat], with every mutex free again. *)
Theorem read_without_file_answers_from_memory m c o imageRef hash :
  lock c = 0 →
  files o !! record_path c imageRef = None →
  (∀ info, cache_lookup imageRef c = Some info → mux info = 0) →
  getImagePullInfo m imageRef c o =
    Done (cache_lookup imageRef c) c (log_call (SysStat (record_path c imageRef)) o)
  ∧ getAuthInfo m imageRef hash c o =
    Done (auth_of imageRef hash c) c (log_call (SysStat (record_path c imageRef)) o).
Proof.
  intros Hl Hf Hm. split.
  - by apply getImagePullInfo_no_file.
  - by apply getAuthInfo_no_file.
Qed.

Lemma read_without_file_answers_from_memory_witness :
  let c := Sample.cache_with (Sample.record {[ "hash1" := Some Sample.fresh ]}) in
  files Sample.empty_disk !! record_path c "img-a" = None
  ∧ returned (getAuthInfo GoMutex "img-a" "hash1" c Sample.empty_disk)
    = Some (Some Sample.fresh)
  ∧ returned (getAuthInfo GoMutex "img-a" "hash2" c Sample.empty_disk) = Some None
  ∧ cache_of (getAuthInfo GoMutex "img-a" "hash1" c Sample.empty_disk) = c.
Proof.
  intros c.
  assert (∀ info, cache_lookup "img-a" c = Some info → mux info = 0) as Hm.
  { intros info Hin. vm_compute in Hin. by inversion Hin. }
  destruct (read_without_file_answers_from_memory GoMutex c Sample.empty_disk "img-a" "hash1")
    as [_ H1]; [reflexivity | vm_compute; reflexivity | exact Hm |].
  destruct (read_without_file_answers_from_memory GoMutex c Sample.empty_disk "img-a" "hash2")
    as [_ H2]; [reflexivity | vm_compute; reflexivity | exact Hm |].
  split; [vm_compute; reflexivity|].
  rewrite H1, H2. repeat split; vm_compute; reflexivity.
Defined.

(** ** Entries kept in memory only *)

Lemma setAuthInfo_run m c o imageRef hash data :
  lock c = 0 →
  setAuthInfo m imageRef hash data c o =
  Done tt (set_cache (Some (<[imageRef := {| mux := 0; Auths := {[ hash := data ]} |}]>
                              (default ∅ (cache c)))) c) o.
Proof.
  intros Hl. destruct c as [l cc p]; cbn in *; subst.
  unfold setAuthInfo, bind, c_lock_Lock, c_lock_Unlock, cache_assign. cbn.
  by rewrite Mutex_Lock_free.
Qed.

Lemma deleteAuthInfo_run m c o imageRef hash :
  lock c = 0 →
  (∀ info, cache_lookup imageRef c = Some info → mux info = 0) →
  deleteAuthInfo m imageRef hash c o =
  Done tt (set_cache (alter (λ info, set_Auths (delete hash (Auths info)) info) imageRef
                        <$> cache c) c) o.
Proof.
  intros Hl Hm. destruct c as [l cc p]; unfold cache_lookup in *; cbn in *; subst.
  unfold deleteAuthInfo, with_c_lock, bind, c_lock_Lock, c_lock_Unlock, cache_lookup,
    mux_Lock, mux_Unlock. cbn.
  rewrite Mutex_Lock_free. cbn.
  destruct cc as [cm|]; cbn; [|done].
  assert (∀ cm1 cm2 : gmap string ImagePullInfo, cm1 = cm2 →
            Done tt {| lock := 0; cache := Some cm1; imageStateManagerPath := p |} o
            = Done tt {| lock := 0; cache := Some cm2; imageStateManagerPath := p |} o)
    as Heq by (by intros ?? ->).
  destruct (cm !! imageRef) as [info|] eqn:Hin; cbn.
  - rewrite (Hm info eq_refl), Mutex_Lock_free. cbn.
    rewrite lookup_alter_eq, lookup_insert_eq. cbn.
    apply Heq, map_eq. intros j.
    destruct (decide (j = imageRef)) as [->|Hne].
    + rewrite lookup_insert_eq, lookup_alter_eq, Hin. cbn.
      pose proof (Hm info eq_refl) as Hmx.
      destruct info as [mx au]. cbn in *. by subst.
    + rewrite lookup_insert_ne, !lookup_alter_ne, lookup_insert_ne by done. done.
  - apply Heq, map_eq. intros j.
    destruct (decide (j = imageRef)) as [->|Hne].
    + by rewrite lookup_alter_eq, Hin.
    + by rewrite lookup_alter_ne.
Qed.

(** X2. [setAuthInfo] followed by [getAuthInfo] on a reference that has no
    file on disk: the entry set is the entry read, and every other hash of
    the reference reads nil, because the record is replaced by one holding
    the single pair. *)
Theorem setAuthInfo_then_getAuthInfo m c o imageRef hash data :
  lock c = 0 →
  files o !! record_path c imageRef = None →
  let res := setAuthInfo m imageRef hash data c o in
  returned res = Some tt
  ∧ returned (after res (getAuthInfo m imageRef hash)) = Some data
  ∧ (∀ other, other ≠ hash →
       returned (after res (getAuthInfo m imageRef other)) = Some None)
  ∧ cache_of (after res (getAuthInfo m imageRef hash)) = cache_of res.
Proof.
  intros Hl Hf res. subst res. rewrite setAuthInfo_run by done. cbn [after returned cache_of].
  set (c' := set_cache _ c).
  assert (∀ h, getAuthInfo m imageRef h c' o =
               Done (auth_of imageRef h c') c' (log_call (SysStat (record_path c imageRef)) o))
    as Hget.
  { intros h. apply (getAuthInfo_no_file m c' o imageRef h); [done|done|].
    unfold c', cache_lookup. cbn. rewrite lookup_insert_eq. by intros info [= <-]. }
  split; [done|]. rewrite !Hget. cbn.
  assert (∀ h, auth_of imageRef h c'
               = mjoin (({[ hash := data ]} : gmap string (option EnsuredInfo)) !! h)) as Hau.
  { intros h. unfold auth_of, c', cache_lookup. cbn. rewrite lookup_insert_eq. cbn.
    by destruct (_ !! h). }
  split; [by rewrite Hau, lookup_singleton_eq|].
  split; [|done].
  intros other Hne. rewrite Hget. cbn. by rewrite Hau, lookup_singleton_ne.
Qed.

Lemma setAuthInfo_then_getAuthInfo_witness :
  let res := setAuthInfo GoMutex "img-a" "hash1" (Some Sample.fresh)
               (Sample.cache_with (Sample.record {[ "hash2" := Some Sample.stale ]}))
               Sample.empty_disk in
  returned (after res (getAuthInfo GoMutex "img-a" "hash1")) = Some (Some Sample.fresh)
  ∧ returned (after res (getAuthInfo GoMutex "img-a" "hash2")) = Some None.
Proof.
  intros res.
  destruct (setAuthInfo_then_getAuthInfo GoMutex
              (Sample.cache_with (Sample.record {[ "hash2" := Some Sample.stale ]}))
              Sample.empty_disk "img-a" "hash1" (Some Sample.fresh))
    as (_ & Hsame & Hother & _); [reflexivity | vm_compute; reflexivity |].
  split; [exact Hsame|]. apply Hother. discriminate.
Defined.

(** X3. [setAuthInfo] and [deleteAuthInfo] work on memory alone and on one
    record alone: from every state, under either mutex, they make no system
    call and leave the disk as it is, and the record of every other image
    reference is the one it was. *)
Theorem memory_only_methods_touch_one_record m c o imageRef hash data other :
  other ≠ imageRef →
  os_of (setAuthInfo m imageRef hash data c o) = o
  ∧ cache_lookup other (cache_of (setAuthInfo m imageRef hash data c o))
    = cache_lookup other c
  ∧ os_of (deleteAuthInfo m imageRef hash c o) = o
  ∧ cache_lookup other (cache_of (deleteAuthInfo m imageRef hash c o))
    = cache_lookup other c.
Proof.
  intros Hne. destruct c as [l cc p].
  split; [|split; [|split]].
  - unfold setAuthInfo, bind, c_lock_Lock, c_lock_Unlock, cache_assign. cbn.
    destruct (Mutex_Lock m l) as [l'|]; cbn; [|done]. by destruct l'.
  - unfold setAuthInfo, bind, c_lock_Lock, c_lock_Unlock, cache_assign, cache_lookup. cbn.
    destruct (Mutex_Lock m l) as [l'|]; cbn; [|by destruct cc].
    destruct l'; cbn; rewrite lookup_insert_ne by done; by destruct cc.
  - unfold deleteAuthInfo, with_c_lock, bind, c_lock_Lock, c_lock_Unlock, cache_lookup,
      mux_Lock, mux_Unlock. cbn.
    destruct (Mutex_Lock m l) as [l'|]; cbn; [|done].
    destruct cc as [cm|]; cbn; [|by destruct l'].
    destruct (cm !! imageRef) as [info|] eqn:Hin; cbn; [|by destruct l'].
    destruct (Mutex_Lock m (mux info)) as [mx|]; cbn; [|done].
    rewrite lookup_alter_eq, lookup_insert_eq. cbn. destruct mx; cbn; by destruct l'.
  - unfold deleteAuthInfo, with_c_lock, bind, c_lock_Lock, c_lock_Unlock, cache_lookup,
      mux_Lock, mux_Unlock. cbn.
    destruct (Mutex_Lock m l) as [l'|]; cbn; [|done].
    destruct cc as [cm|]; cbn; [|by destruct l'].
    destruct (cm !! imageRef) as [info|] eqn:Hin; cbn; [|by destruct l'].
    destruct (Mutex_Lock m (mux info)) as [mx|]; cbn; [|done].
    rewrite lookup_alter_eq, lookup_insert_eq. cbn.
    destruct mx, l'; cbn;
      by rewrite ?lookup_insert_ne, ?lookup_alter_ne, ?lookup_insert_ne by done.
Qed.

Lemma memory_only_methods_touch_one_record_witness :
  let c := Sample.cache_with (Sample.record {[ "hash1" := Some Sample.fresh ]}) in
  cache_lookup "img-a" (cache_of (setAuthInfo GoMutex "img-b" "hash2" None c Sample.empty_disk))
  = Some (Sample.record {[ "hash1" := Some Sample.fresh ]})
  ∧ os_of (deleteAuthInfo GoMutex "img-b" "hash1" c Sample.empty_disk) = Sample.empty_disk.
Proof.
  intros c.
  destruct (memory_only_methods_touch_one_record GoMutex c Sample.empty_disk
              "img-b" "hash2" None "img-a") as (_ & H2 & _); [discriminate|].
  destruct (memory_only_methods_touch_one_record GoMutex c Sample.empty_disk
              "img-b" "hash1" None "img-a") as (_ & _ & H3 & _); [discriminate|].
  split; [rewrite H2; vm_compute; reflexivity | exact H3].
Defined.

Lemma auth_of_deleteAuthInfo c imageRef hash other :
  auth_of imageRef other
    (set_cache (alter (λ info, set_Auths (delete hash (Auths info)) info) imageRef
                  <$> cache c) c)
  = if decide (other = hash) then None else auth_of imageRef other c.
Proof.
  unfold auth_of, cache_lookup. destruct c as [l [cm|] p]; cbn; [|by case_decide].
  rewrite lookup_alter_eq. destruct (cm !! imageRef) as [info|]; cbn; [|by case_decide].
  case_decide as Hd; [subst; by rewrite lookup_delete_eq|by rewrite lookup_delete_ne].
Qed.

(** X4. [deleteAuthInfo] removes one hash from the record of one reference
    and nothing else: the other hashes of the record read as before, the
    record itself stays in the map even when its last entry goes, and a second
    call changes nothing.  It is a no-op, not an error, when the map is nil or
    the reference or the hash is missing. *)
Theorem deleteAuthInfo_removes_one_entry m c o imageRef hash :
  lock c = 0 →
  (∀ info, cache_lookup imageRef c = Some info → mux info = 0) →
  let res := deleteAuthInfo m imageRef hash c o in
  returned res = Some tt
  ∧ auth_of imageRef hash (cache_of res) = None
  ∧ (∀ other, other ≠ hash →
       auth_of imageRef other (cache_of res) = auth_of imageRef other c)
  ∧ (is_Some (cache_lookup imageRef (cache_of res)) ↔ is_Some (cache_lookup imageRef c))
  ∧ after res (deleteAuthInfo m imageRef hash) = res
  ∧ ((∀ info, cache_lookup imageRef c = Some info → Auths info !! hash = None) →
     res = Done tt c o).
Proof.
  intros Hl Hm res. subst res. rewrite deleteAuthInfo_run by done.
  cbn [returned cache_of after].
  split; [done|].
  split; [rewrite auth_of_deleteAuthInfo; by case_decide|].
  split; [intros other Hne; rewrite auth_of_deleteAuthInfo; by case_decide|].
  split.
  { unfold cache_lookup. destruct c as [l [cm|] p]; cbn; [|done].
    rewrite lookup_alter_eq. by rewrite fmap_is_Some. }
  split.
  - rewrite deleteAuthInfo_run.
    + destruct c as [l [cm|] p]; cbn; [|done].
      unfold set_cache. cbn. do 3 f_equal. apply map_eq. intros j.
      destruct (decide (j = imageRef)) as [->|Hne].
      * rewrite !lookup_alter_eq. destruct (cm !! imageRef) as [info|]; cbn; [|done].
        by rewrite delete_delete_eq.
      * by rewrite !lookup_alter_ne.
    + by destruct c.
    + unfold cache_lookup. destruct c as [l [cm|] p]; cbn in *; [|done].
      intros info. rewrite lookup_alter_eq.
      destruct (cm !! imageRef) as [info0|] eqn:Hin; cbn; [|done].
      intros [= <-]. cbn. unfold cache_lookup in Hm. cbn in Hm. by apply Hm.
  - intros Hnone. unfold cache_lookup in *.
    destruct c as [l [cm|] p]; cbn in *; [|done].
    unfold set_cache. cbn. do 3 f_equal. apply alter_id.
    intros info Hin. destruct info as [mx au]. unfold set_Auths. cbn.
    f_equal. apply delete_id. by apply (Hnone _ Hin).
Qed.

Lemma deleteAuthInfo_removes_one_entry_witness :
  let c := Sample.cache_with
             (Sample.record {[ "hash1" := Some Sample.fresh; "hash2" := Some Sample.stale ]}) in
  let res := deleteAuthInfo GoMutex "img-a" "hash2" c Sample.empty_disk in
  auth_of "img-a" "hash2" c = Some Sample.stale
  ∧ auth_of "img-a" "hash2" (cache_of res) = None
  ∧ auth_of "img-a" "hash1" (cache_of res) = Some Sample.fresh
  ∧ after res (deleteAuthInfo GoMutex "img-a" "hash2") = res.
Proof.
  intros c res. subst res.
  destruct (deleteAuthInfo_removes_one_entry GoMutex c Sample.empty_disk "img-a" "hash2")
    as (_ & Hgone & Hkeep & _ & Hidem & _);
    [reflexivity | intros info Hin; vm_compute in Hin; by inversion Hin |].
  split; [vm_compute; reflexivity|].
  split; [exact Hgone|].
  split; [rewrite (Hkeep "hash1"); [vm_compute; reflexivity | discriminate] | exact Hidem].
Defined.

(** X5. [deleteAuthInfo] followed by [getAuthInfo] on a reference that has
    no file on disk: the hash deleted reads nil, and every other hash reads
    what it read before. *)
Theorem deleteAuthInfo_then_getAuthInfo m c o imageRef hash other :
  lock c = 0 →
  files o !! record_path c imageRef = None →
  (∀ info, cache_lookup imageRef c = Some info → mux info = 0) →
  other ≠ hash →
  let res := deleteAuthInfo m imageRef hash c o in
  returned (after res (getAuthInfo m imageRef hash)) = Some None
  ∧ returned (after res (getAuthInfo m imageRef other))
    = returned (getAuthInfo m imageRef other c o).
Proof.
  intros Hl Hf Hm Hne res. subst res. rewrite deleteAuthInfo_run by done. cbn [after].
  set (c' := set_cache _ c).
  assert (∀ h, getAuthInfo m imageRef h c' o =
               Done (auth_of imageRef h c') c' (log_call (SysStat (record_path c imageRef)) o))
    as Hget.
  { intros h. apply (getAuthInfo_no_file m c' o imageRef h); [by destruct c|by destruct c|].
    unfold c', cache_lookup. destruct c as [l [cm|] p]; cbn in *; [|done].
    intros info. rewrite lookup_alter_eq.
    destruct (cm !! imageRef) as [info0|] eqn:Hin; cbn; [|done].
    intros [= <-]. cbn. unfold cache_lookup in Hm. cbn in Hm. by apply Hm. }
  rewrite !Hget, getAuthInfo_no_file by done. cbn. unfold c'.
  rewrite !auth_of_deleteAuthInfo. split; by case_decide.
Qed.

Lemma deleteAuthInfo_then_getAuthInfo_witness :
  let c := Sample.cache_with
             (Sample.record {[ "hash1" := Some Sample.fresh; "hash2" := Some Sample.stale ]}) in
  let res := deleteAuthInfo GoMutex "img-a" "hash2" c Sample.empty_disk in
  returned (getAuthInfo GoMutex "img-a" "hash2" c Sample.empty_disk) = Some (Some Sample.stale)
  ∧ returned (after res (getAuthInfo GoMutex "img-a" "hash2")) = Some None
  ∧ returned (after res (getAuthInfo GoMutex "img-a" "hash1")) = Some (Some Sample.fresh).
Proof.
  intros c res. subst res.
  destruct (deleteAuthInfo_then_getAuthInfo GoMutex c Sample.empty_disk "img-a" "hash2" "hash1")
    as (Hgone & Hkeep);
    [reflexivity | vm_compute; reflexivity
    | intros info Hin; vm_compute in Hin; by inversion Hin | discriminate |].
  split; [vm_compute; reflexivity|].
  split; [exact Hgone|]. rewrite Hkeep. vm_compute. reflexivity.
Defined.

(** ** Deleting a record that is on disk *)

Lemma deleteImagePullInfo_run m c o imageRef :
  lock c = 0 →
  deleteImagePullInfo m imageRef c o =
  let '(err, o') := os_Remove (record_path c imageRef) o in
  Done err (set_cache (delete imageRef <$> cache c) c) o'.
Proof.
  intros Hl. destruct c as [l cc p]; unfold record_path; cbn in *; subst.
  unfold deleteImagePullInfo, with_c_lock, bind, c_lock_Lock, c_lock_Unlock, sys. cbn.
  rewrite Mutex_Lock_free. cbn.
  destruct cc as [cm|]; cbn; by destruct (os_Remove _ o).
Qed.

(** X6. When the file of a reference is there and can be removed,
    [deleteImagePullInfo] returns no error, with the record gone from memory
    and the file gone from disk by one [os.Remove]; the files and records of
    other references are untouched, and [getImagePullInfo] and [getAuthInfo]
    then return nil for the reference. *)
Theorem deleteImagePullInfo_removes_record_and_file m c o imageRef hash n :
  lock c = 0 →
  fault o NRemove (record_path c imageRef) = None →
  files o !! record_path c imageRef = Some n →
  let res := deleteImagePullInfo m imageRef c o in
  returned res = Some None
  ∧ cache_lookup imageRef (cache_of res) = None
  ∧ files (os_of res) = delete (record_path c imageRef) (files o)
  ∧ new_calls o (os_of res) = [SysRemove (record_path c imageRef)]
  ∧ (∀ other, other ≠ imageRef →
       cache_lookup other (cache_of res) = cache_lookup other c)
  ∧ returned (after res (getImagePullInfo m imageRef)) = Some None
  ∧ returned (after res (getAuthInfo m imageRef hash)) = Some None.
Proof.
  intros Hl Hf Hn res. subst res. rewrite deleteImagePullInfo_run by done.
  unfold os_Remove. rewrite Hf, Hn. cbn [returned cache_of os_of after].
  set (c' := set_cache _ c). set (o' := set_files _ _).
  assert (cache_lookup imageRef c' = None) as Hgone.
  { unfold c', cache_lookup. destruct c as [l [cm|] p]; cbn; [|done]. apply lookup_delete_eq. }
  assert (files o' !! record_path c' imageRef = None) as Hnofile.
  { unfold o', c', record_path. destruct c; cbn. apply lookup_delete_eq. }
  split; [done|]. split; [done|]. split; [done|].
  split; [unfold new_calls, o'; cbn; by rewrite drop_app_length|].
  split.
  { intros other Hne. unfold c', cache_lookup. destruct c as [l [cm|] p]; cbn; [|done].
    by apply lookup_delete_ne. }
  split.
  - rewrite getImagePullInfo_no_file; [by rewrite Hgone|by destruct c|done].
  - rewrite getAuthInfo_no_file; [|by destruct c|done|by rewrite Hgone].
    cbn. unfold auth_of. by rewrite Hgone.
Qed.

Lemma deleteImagePullInfo_removes_record_and_file_witness :
  let c := Sample.cache_with (Sample.record {[ "hash1" := Some Sample.fresh ]}) in
  let o := Sample.disk_with (JSONDoc {[ "hash1" := Some Sample.fresh ]}) in
  let res := deleteImagePullInfo GoMutex "img-a" c o in
  is_Some (files o !! Sample.img_a)
  ∧ returned res = Some None
  ∧ files (os_of res) !! Sample.img_a = None
  ∧ returned (after res (getAuthInfo GoMutex "img-a" "hash1")) = Some None.
Proof.
  intros c o res. subst res.
  destruct (deleteImagePullInfo_removes_record_and_file GoMutex c o "img-a" "hash1"
              (File (JSONDoc {[ "hash1" := Some Sample.fresh ]}) (octal 6 4 4)))
    as (Hret & _ & Hfiles & _ & _ & _ & Hget);
    [reflexivity | reflexivity | vm_compute; reflexivity |].
  split; [vm_compute; eauto|].
  split; [exact Hret|].
  split; [rewrite Hfiles; vm_compute; reflexivity | exact Hget].
Defined.

(** X7. The empty image reference is not set apart in [deleteImagePullInfo]:
    the path it hands to [os.Remove] is the cache directory itself. *)
Theorem deleteImagePullInfo_empty_imageRef m c o :
  lock c = 0 →
  let res := deleteImagePullInfo m EmptyString c o in
  new_calls o (os_of res) = [SysRemove (imageStateManagerPath c)]
  ∧ (fault o NRemove (imageStateManagerPath c) = None →
     files o !! imageStateManagerPath c = Some Dir →
     returned res = Some None
     ∧ files (os_of res) !! imageStateManagerPath c = None).
Proof.
  intros Hl res. subst res. rewrite deleteImagePullInfo_run by done.
  unfold record_path. rewrite filepath_Join_empty. unfold os_Remove.
  split.
  - destruct (fault o NRemove _); [|destruct (files o !! _)];
      unfold new_calls; cbn; by rewrite drop_app_length.
  - intros -> ->. cbn. split; [done|]. apply lookup_delete_eq.
Qed.

Lemma deleteImagePullInfo_empty_imageRef_witness :
  let res := deleteImagePullInfo GoMutex EmptyString Sample.empty_cache Sample.empty_disk in
  files Sample.empty_disk !! Sample.stateDir = Some Dir
  ∧ new_calls Sample.empty_disk (os_of res) = [SysRemove Sample.stateDir]
  ∧ returned res = Some None
  ∧ files (os_of res) !! Sample.stateDir = None.
Proof.
  intros res. subst res.
  destruct (deleteImagePullInfo_empty_imageRef GoMutex Sample.empty_cache Sample.empty_disk)
    as (Hcalls & Hrm); [reflexivity|].
  destruct Hrm as (Hret & Hgone); [reflexivity | vm_compute; reflexivity |].
  split; [vm_compute; reflexivity|].
  split; [exact Hcalls|]. split; [exact Hret | exact Hgone].
Defined.

(** ** Where the methods stop, from every state *)

(** X8. Under Go's mutex [storeImageManagerCache] and [setImagePullInfo]
    never return, whatever the state, the reference and the entry, and they
    make no system call: nothing is ever written to disk through them. *)
Theorem store_and_set_never_return c o imageRef hash data :
  blocked (storeImageManagerCache GoMutex imageRef c o) = true
  ∧ os_of (storeImageManagerCache GoMutex imageRef c o) = o
  ∧ blocked (setImagePullInfo GoMutex imageRef hash data c o) = true
  ∧ os_of (setImagePullInfo GoMutex imageRef hash data c o) = o.
Proof.
  destruct c as [l cc p].
  unfold setImagePullInfo, storeImageManagerCache, getImagePullInfo, with_c_lock, bind,
    c_lock_Lock. cbn.
  by destruct l.
Qed.

(** X9. Under Go's mutex a read of a reference whose file is on disk never
    returns: [getImagePullInfo] holds [c.lock] when [loadImageManagerCache],
    having found the file, locks it again, and [getAuthInfo] starts with
    [getImagePullInfo].  The file is not read and memory is as it was, with
    [c.lock] left held. *)
Theorem read_with_file_never_returns c o imageRef hash n :
  lock c = 0 →
  imageRef ≠ EmptyString →
  fault o NStat (record_path c imageRef) = None →
  files o !! record_path c imageRef = Some n →
  blocked (getImagePullInfo GoMutex imageRef c o) = true
  ∧ blocked (getAuthInfo GoMutex imageRef hash c o) = true
  ∧ cache_of (getAuthInfo GoMutex imageRef hash c o) = set_lock 1 c
  ∧ new_calls o (os_of (getAuthInfo GoMutex imageRef hash c o))
    = [SysStat (record_path c imageRef)].
Proof.
  intros Hl Hne Hs Hn.
  unfold getAuthInfo, bind.
  rewrite (getImagePullInfo_blocks_on_file c o Hl imageRef Hne Hs) by eauto.
  cbn. repeat split; try done. unfold new_calls. cbn. by rewrite drop_app_length.
Qed.

Lemma read_with_file_never_returns_witness :
  let c := Sample.cache_with (Sample.record {[ "hash1" := Some Sample.fresh ]}) in
  let o := Sample.disk_with (JSONDoc {[ "hash1" := Some Sample.fresh ]}) in
  is_Some (files o !! record_path c "img-a")
  ∧ blocked (getImagePullInfo GoMutex "img-a" c o) = true
  ∧ blocked (getAuthInfo GoMutex "img-a" "hash1" c o) = true.
Proof.
  intros c o.
  destruct (read_with_file_never_returns c o "img-a" "hash1"
              (File (JSONDoc {[ "hash1" := Some Sample.fresh ]}) (octal 6 4 4)))
    as (H1 & H2 & _); [reflexivity | discriminate | reflexivity | vm_compute; reflexivity |].
  split; [vm_compute; eauto|]. split; [exact H1 | exact H2].
Defined.

(** ** Errors of hydration *)

Lemma loadImageManagerCache_cases m c o imageRef cm :
  lock c = 0 →
  cache c = Some cm →
  let path := record_path c imageRef in
  let res := loadImageManagerCache m imageRef c o in
  returned res =
    Some (match fault o NStat path with
          | Some e => if os_IsNotExist (PathError e) then None else Some (PathError e)
          | None =>
              match files o !! path with
              | None => None
              | Some n =>
                  if decide (imageRef = EmptyString) then None
                  else
                    match fault o NReadFile path with
                    | Some e => Some (PathError e)
                    | None =>
                        match n with
                        | Dir => Some (PathError EISDIR)
                        | File (NotJSON _) _ => Some SyntaxError
                        | File (JSONDoc _) _ => None
                        end
                    end
              end
          end)
  ∧ lock (cache_of res) = 0
  ∧ (∀ err, returned res = Some (Some err) → cache_of res = c).
Proof.
  intros Hl Hc path res. subst path res.
  destruct c as [l cc p]; unfold record_path; cbn in *; subst.
  unfold loadImageManagerCache, with_c_lock, bind, sys, os_Stat, c_lock_Lock,
    c_lock_Unlock, cache_assign, os_ReadFile, utiljson_Unmarshal. cbn.
  destruct (fault o NStat _) as [e|]; cbn.
  { by destruct e. }
  destruct (files o !! _) as [n|] eqn:Hf; cbn; [|done].
  destruct (decide (imageRef = EmptyString)); cbn; [done|].
  rewrite Mutex_Lock_free. cbn. rewrite Hf.
  destruct (fault o NReadFile _) as [e|]; cbn; [done|].
  by destruct n as [[a|raw] perm|].
Qed.

(** X10. What [loadImageManagerCache] returns, case by case, when [c.lock]
    is free and the map allocated: it always returns; a failure of [os.Stat]
    is passed on unless it is "does not exist"; a missing file and the empty
    reference give no error; a failure of [os.ReadFile] (a directory in place
    of the file among them) and a decoding error are passed on; and whenever
    an error is returned the cache in memory is exactly as it was. *)
Theorem loadImageManagerCache_result m c o imageRef cm :
  lock c = 0 →
  cache c = Some cm →
  let path := record_path c imageRef in
  let res := loadImageManagerCache m imageRef c o in
  returned res =
    Some (match fault o NStat path with
          | Some e => if os_IsNotExist (PathError e) then None else Some (PathError e)
          | None =>
              match files o !! path with
              | None => None
              | Some n =>
                  if decide (imageRef = EmptyString) then None
                  else
                    match fault o NReadFile path with
                    | Some e => Some (PathError e)
                    | None =>
                        match n with
                        | Dir => Some (PathError EISDIR)
                        | File (NotJSON _) _ => Some SyntaxError
                        | File (JSONDoc _) _ => None
                        end
                    end
              end
          end)
  ∧ lock (cache_of res) = 0
  ∧ (∀ err, returned res = Some (Some err) → cache_of res = c).
Proof.
  intros Hl Hc path res. subst path res.
  destruct c as [l cc p]; unfold record_path; cbn in *; subst.
  unfold loadImageManagerCache, with_c_lock, bind, sys, os_Stat, c_lock_Lock,
    c_lock_Unlock, cache_assign, os_ReadFile, utiljson_Unmarshal. cbn.
  destruct (fault o NStat _) as [e|]; cbn.
  { by destruct e. }
  destruct (files o !! _) as [n|] eqn:Hf; cbn; [|done].
  destruct (decide (imageRef = EmptyString)); cbn; [done|].
  rewrite Mutex_Lock_free. cbn. rewrite Hf.
  destruct (fault o NReadFile _) as [e|]; cbn; [done|].
  by destruct n as [[a|raw] perm|].
Qed.

Lemma loadImageManagerCache_result_witness :
  let c := Sample.cache_with (Sample.record {[ "hash1" := Some Sample.fresh ]}) in
  let o := set_files {[ Sample.stateDir := Dir; Sample.img_a := Dir ]} Sample.empty_disk in
  let res := loadImageManagerCache GoMutex "img-a" c o in
  files o !! record_path c "img-a" = Some Dir
  ∧ returned res = Some (Some (PathError EISDIR))
  ∧ cache_of res = c.
Proof.
  intros c o res. subst res.
  destruct (loadImageManagerCache_result GoMutex c o "img-a"
              {[ "img-a" := Sample.record {[ "hash1" := Some Sample.fresh ]} ]})
    as (Hret & _ & Hsame); [reflexivity | reflexivity |].
  split; [vm_compute; reflexivity|].
  assert (returned (loadImageManagerCache GoMutex "img-a" c o)
          = Some (Some (PathError EISDIR))) as Herr
    by (rewrite Hret; vm_compute; reflexivity).
  split; [exact Herr | exact (Hsame _ Herr)].
Defined.

(** X11. A call of [loadImageManagerCache] on a cache whose map is nil (the
    zero value of the struct) panics when it comes to store a decoded record:
    unlike [setImagePullInfo] and [setAuthInfo], it does not allocate the
    map. *)
Theorem loadImageManagerCache_nil_map_panics m c o imageRef a perm hash data :
  lock c = 0 →
  cache c = None →
  imageRef ≠ EmptyString →
  fault o NStat (record_path c imageRef) = None →
  fault o NReadFile (record_path c imageRef) = None →
  files o !! record_path c imageRef = Some (File (JSONDoc a) perm) →
  (∃ c' o', loadImageManagerCache m imageRef c o = Panicked c' o')
  ∧ returned (setAuthInfo m imageRef hash data c o) = Some tt
  ∧ cache_lookup imageRef (cache_of (setAuthInfo m imageRef hash data c o))
    = Some {| mux := 0; Auths := {[ hash := data ]} |}.
Proof.
  intros Hl Hc Hne Hs Hr Hf.
  split.
  - destruct c as [l cc p]; unfold record_path in *; cbn in *; subst.
    unfold loadImageManagerCache, with_c_lock, bind, sys, os_Stat, c_lock_Lock,
      c_lock_Unlock, cache_assign, os_ReadFile, utiljson_Unmarshal. cbn.
    rewrite Hs, Hf. cbn.
    destruct (decide (imageRef = EmptyString)); [done|].
    rewrite Mutex_Lock_free. cbn. rewrite Hr, Hf. cbn. eauto.
  - rewrite setAuthInfo_run by done. cbn. split; [done|].
    unfold cache_lookup. cbn. by rewrite lookup_insert_eq.
Qed.

Lemma loadImageManagerCache_nil_map_panics_witness :
  let c := {| lock := 0; cache := None; imageStateManagerPath := Sample.stateDir |} in
  let o := Sample.disk_with (JSONDoc {[ "hash1" := Some Sample.fresh ]}) in
  (∃ c' o', loadImageManagerCache GoMutex "img-a" c o = Panicked c' o')
  ∧ returned (setAuthInfo GoMutex "img-a" "hash1" (Some Sample.fresh) c o) = Some tt.
Proof.
  intros c o.
  destruct (loadImageManagerCache_nil_map_panics GoMutex c o "img-a"
              {[ "hash1" := Some Sample.fresh ]} (octal 6 4 4) "hash1" (Some Sample.fresh))
    as (Hp & Hs & _);
    [reflexivity | reflexivity | discriminate | reflexivity | reflexivity
    | vm_compute; reflexivity |].
  split; [exact Hp | exact Hs].
Defined.

(** ** What the reading methods leave alone *)

Lemma reads_only_trans o o1 o2 : reads_only o o1 → reads_only o1 o2 → reads_only o o2.
Proof. intros H1 H2. induction H2; [done|by constructor|by constructor]. Qed.

Lemma getAuthInfo_reads_only m imageRef hash c o :
  reads_only o (os_of (getAuthInfo m imageRef hash c o)).
Proof.
  unfold getAuthInfo, bind at 1.
  destruct (getImagePullInfo_reads_only m imageRef c o) as [Hr _].
  destruct (getImagePullInfo m imageRef c o) as [info c1 o1|c1 o1|c1 o1]; cbn in *;
    [|done|done].
  destruct info as [info|]; [|done].
  unfold with_c_lock, bind, c_lock_Lock, c_lock_Unlock, mux_Lock, mux_Unlock, cache_lookup.
  destruct (Mutex_Lock m (lock c1)) as [l'|]; cbn; [|done].
  destruct (cache c1) as [cm|]; cbn; [|done].
  destruct (cm !! imageRef) as [i|]; cbn; [|done].
  destruct (Mutex_Lock m (mux i)) as [mx|]; cbn; [|done].
  rewrite lookup_insert_eq. cbn. destruct mx; cbn; [done|]. by destruct l'.
Qed.

Lemma load_each_reads_only m imageRefs c o :
  reads_only o (os_of (load_each m imageRefs c o)).
Proof.
  revert c o. induction imageRefs as [|r rest IH]; intros c o; cbn; [constructor|].
  unfold bind.
  destruct (loadImageManagerCache_reads_only m r c o) as [Hr _].
  destruct (loadImageManagerCache m r c o) as [err c1 o1|c1 o1|c1 o1]; cbn in *;
    [|done|done].
  destruct err; [done|]. eapply reads_only_trans; [exact Hr|apply IH].
Qed.

Lemma reads_only_observed o o' :
  reads_only o o' →
  files o' = files o ∧ forallb is_read (new_calls o o') = true.
Proof.
  intros (Hf & _ & _ & l & Hl & Hr)%reads_only_spec. split; [done|].
  unfold new_calls. by rewrite Hl, drop_app_length.
Qed.

(** X12. Building the cache and reading from it never change the disk.  From
    every state and under either mutex, [newImageManagerCache],
    [loadImageManagerCache], [getImagePullInfo] and [getAuthInfo] leave every
    file as it is, and the only system calls they make are [os.Stat] and
    [os.ReadFile]. *)
Theorem reading_methods_never_write m c o rootDir imageRefs imageRef hash :
  (files (os_of (newImageManagerCache m rootDir imageRefs o)) = files o
   ∧ forallb is_read (new_calls o (os_of (newImageManagerCache m rootDir imageRefs o))) = true)
  ∧ (files (os_of (loadImageManagerCache m imageRef c o)) = files o
     ∧ forallb is_read (new_calls o (os_of (loadImageManagerCache m imageRef c o))) = true)
  ∧ (files (os_of (getImagePullInfo m imageRef c o)) = files o
     ∧ forallb is_read (new_calls o (os_of (getImagePullInfo m imageRef c o))) = true)
  ∧ (files (os_of (getAuthInfo m imageRef hash c o)) = files o
     ∧ forallb is_read (new_calls o (os_of (getAuthInfo m imageRef hash c o))) = true).
Proof.
  split; [|split; [|split]]; apply reads_only_observed.
  - apply load_each_reads_only.
  - apply loadImageManagerCache_reads_only.
  - apply getImagePullInfo_reads_only.
  - apply getAuthInfo_reads_only.
Qed.

Lemma loadImageManagerCache_frame m imageRef c o other :
  other ≠ imageRef →
  cache_lookup other (cache_of (loadImageManagerCache m imageRef c o))
  = cache_lookup other c.
Proof.
  intros Hne. destruct c as [l cc p].
  unfold loadImageManagerCache, with_c_lock, bind, sys, os_Stat, c_lock_Lock,
    c_lock_Unlock, cache_assign, os_ReadFile, utiljson_Unmarshal, cache_lookup. cbn.
  destruct (fault o NStat _) as [e|]; cbn.
  { by destruct e. }
  destruct (files o !! _) as [n|] eqn:Hf; cbn; [|done].
  destruct (decide (imageRef = EmptyString)); cbn; [done|].
  destruct (Mutex_Lock m l) as [l'|]; cbn; [|done].
  rewrite Hf.
  destruct (fault o NReadFile _) as [e|]; cbn.
  { by destruct l'. }
  destruct n as [[a|raw] perm|]; cbn; [|by destruct l'|by destruct l'].
  destruct cc; cbn; [|done].
  destruct l'; cbn; by rewrite lookup_insert_ne.
Qed.

Lemma getImagePullInfo_frame m imageRef c o other :
  other ≠ imageRef →
  cache_lookup other (cache_of (getImagePullInfo m imageRef c o))
  = cache_lookup other c.
Proof.
  intros Hne.
  unfold getImagePullInfo, with_c_lock, bind, c_lock_Lock, c_lock_Unlock.
  destruct (Mutex_Lock m (lock c)) as [l'|]; cbn; [|done].
  pose proof (loadImageManagerCache_frame m imageRef (set_lock l' c) o other Hne) as Hfr.
  destruct (loadImageManagerCache m imageRef (set_lock l' c) o) as [a c1 o1|c1 o1|c1 o1];
    cbn in *; try done.
  by destruct (Mutex_Unlock (lock c1)).
Qed.

Lemma getAuthInfo_frame m imageRef hash c o other :
  other ≠ imageRef →
  cache_lookup other (cache_of (getAuthInfo m imageRef hash c o))
  = cache_lookup other c.
Proof.
  intros Hne. unfold getAuthInfo, bind at 1.
  pose proof (getImagePullInfo_frame m imageRef c o other Hne) as Hfr.
  destruct (getImagePullInfo m imageRef c o) as [info c1 o1|c1 o1|c1 o1]; cbn in *;
    [|done|done].
  destruct info as [info|]; [|done]. rewrite <- Hfr. clear Hfr.
  destruct c1 as [l1 cc1 p1].
  unfold with_c_lock, bind, c_lock_Lock, c_lock_Unlock, mux_Lock, mux_Unlock, cache_lookup.
  cbn.
  destruct (Mutex_Lock m l1) as [l'|]; cbn; [|done].
  destruct cc1 as [cm|]; cbn; [|done].
  destruct (cm !! imageRef) as [i|]; cbn; [|done].
  destruct (Mutex_Lock m (mux i)) as [mx|]; cbn; [|done].
  rewrite lookup_insert_eq. cbn.
  destruct mx; cbn; [by rewrite lookup_insert_ne|].
  destruct l'; cbn; by rewrite !lookup_insert_ne.
Qed.

(** X13. A read of one image reference leaves the records of the others
    alone: after [loadImageManagerCache], [getImagePullInfo] or
    [getAuthInfo] of a reference, from every state and under either mutex,
    the record of any other reference is the one it was. *)
Theorem reading_methods_touch_one_record m c o imageRef hash other :
  other ≠ imageRef →
  cache_lookup other (cache_of (loadImageManagerCache m imageRef c o)) = cache_lookup other c
  ∧ cache_lookup other (cache_of (getImagePullInfo m imageRef c o)) = cache_lookup other c
  ∧ cache_lookup other (cache_of (getAuthInfo m imageRef hash c o)) = cache_lookup other c.
Proof.
  intros Hne. split; [|split].
  - by apply loadImageManagerCache_frame.
  - by apply getImagePullInfo_frame.
  - by apply getAuthInfo_frame.
Qed.

Lemma reading_methods_touch_one_record_witness :
  let c := Sample.cache_with (Sample.record {[ "hash1" := Some Sample.fresh ]}) in
  let o := set_files {[ "/var/lib/kubelet/image_state_manager/img-b"
                        := File (JSONDoc {[ "hash2" := Some Sample.stale ]}) (octal 6 4 4) ]}
             Sample.empty_disk in
  let res := loadImageManagerCache GoMutex "img-b" c o in
  cache_lookup "img-b" (cache_of res) = Some (Sample.record {[ "hash2" := Some Sample.stale ]})
  ∧ cache_lookup "img-a" (cache_of res)
    = Some (Sample.record {[ "hash1" := Some Sample.fresh ]}).
Proof.
  intros c o res. subst res.
  destruct (reading_methods_touch_one_record GoMutex c o "img-b" "hash2" "img-a")
    as (Hload & _); [discriminate|].
  split; [vm_compute; reflexivity|]. rewrite Hload. vm_compute. reflexivity.
Defined.

(** ** Building the cache *)

Lemma loadImageManagerCache_loadable m c o imageRef cm :
  lock c = 0 →
  cache c = Some cm →
  loadable o (imageStateManagerPath c) imageRef →
  ∃ o', loadImageManagerCache m imageRef c o =
        Done None
          (set_cache
             (Some (match record_on_disk o (imageStateManagerPath c) imageRef with
                    | Some info =>
                        if decide (imageRef = EmptyString) then cm else <[imageRef := info]> cm
                    | None => cm
                    end)) c) o'
        ∧ files o' = files o ∧ fault o' = fault o.
Proof.
  intros Hl Hc (Hs & Hcase).
  destruct c as [l cc p]; unfold record_on_disk; cbn in *; subst.
  unfold loadImageManagerCache, with_c_lock, bind, sys, os_Stat, c_lock_Lock,
    c_lock_Unlock, cache_assign, os_ReadFile, utiljson_Unmarshal. cbn.
  rewrite Hs.
  destruct (decide (imageRef = EmptyString)) as [->|Hne].
  { destruct (files o !! _) as [[[a|raw] perm|]|]; cbn; eauto. }
  destruct Hcase as [?|[Hnone|(Hr & a & perm & Hfile)]]; [done| |].
  - rewrite Hnone. cbn. eauto.
  - rewrite Hfile. cbn. rewrite Mutex_Lock_free. cbn. rewrite Hr, Hfile. cbn. eauto.
Qed.

Lemma loadable_same_disk o o' dir imageRef :
  files o' = files o → fault o' = fault o →
  loadable o dir imageRef → loadable o' dir imageRef.
Proof. unfold loadable. by intros -> ->. Qed.

Lemma load_each_loadable m imageRefs :
  ∀ c o cm,
    lock c = 0 →
    cache c = Some cm →
    Forall (loadable o (imageStateManagerPath c)) imageRefs →
    ∃ c' o' cm',
      load_each m imageRefs c o = Done true c' o'
      ∧ lock c' = 0
      ∧ imageStateManagerPath c' = imageStateManagerPath c
      ∧ files o' = files o ∧ fault o' = fault o
      ∧ cache c' = Some cm'
      ∧ ∀ r, cm' !! r =
             match record_on_disk o (imageStateManagerPath c) r with
             | Some info =>
                 if decide (r ∈ imageRefs ∧ r ≠ EmptyString) then Some info else cm !! r
             | None => cm !! r
             end.
Proof.
  induction imageRefs as [|r0 rest IH]; intros c o cm Hl Hc Hall.
  - exists c, o, cm. cbn. repeat split; try done.
    intros r. destruct (record_on_disk _ _ r); [|done].
    case_decide as Hd; [|done]. destruct Hd as [Hin _]. by apply elem_of_nil in Hin.
  - apply Forall_cons in Hall as [H0 Hrest].
    destruct (loadImageManagerCache_loadable m c o r0 cm Hl Hc H0) as (o1 & Hload & Hf1 & Hfa1).
    cbn [load_each]. unfold bind. rewrite Hload.
    set (cm1 := match record_on_disk o (imageStateManagerPath c) r0 with
                | Some info => if decide (r0 = EmptyString) then cm else <[r0 := info]> cm
                | None => cm
                end) in *.
    destruct (IH (set_cache (Some cm1) c) o1 cm1) as (c' & o' & cm' & Hrun & Hl' & Hp' & Hf' & Hfa' & Hc' & Hlook).
    + by destruct c.
    + done.
    + eapply Forall_impl; [exact Hrest|]. intros r Hr.
      replace (imageStateManagerPath (set_cache (Some cm1) c)) with (imageStateManagerPath c)
        by (by destruct c).
      by apply (loadable_same_disk o o1).
    + exists c', o', cm'. rewrite Hrun.
      replace (imageStateManagerPath (set_cache (Some cm1) c)) with (imageStateManagerPath c)
        in * by (by destruct c).
      repeat split; try done; try congruence.
      intros r. rewrite Hlook.
      assert (record_on_disk o1 (imageStateManagerPath c) r
              = record_on_disk o (imageStateManagerPath c) r) as ->
        by (unfold record_on_disk; by rewrite Hf1).
      destruct (decide (r = r0)) as [->|Hne].
      * unfold cm1.
        destruct (record_on_disk o (imageStateManagerPath c) r0) as [info|]; [|done].
        destruct (decide (r0 = EmptyString)) as [He|He].
        { rewrite !decide_False by (intros [_ ?]; done). done. }
        rewrite lookup_insert_eq.
        rewrite (decide_True (P := r0 ∈ r0 :: rest ∧ _)) by (split; [left|done]).
        by case_decide.
      * assert (cm1 !! r = cm !! r) as ->.
        { unfold cm1. destruct (record_on_disk o _ r0); [|done].
          case_decide; [done|]. by rewrite lookup_insert_ne. }
        destruct (record_on_disk o (imageStateManagerPath c) r) as [info|]; [|done].
        destruct (decide (r ∈ rest ∧ r ≠ EmptyString)) as [[Hin Hr]|Hd].
        { rewrite decide_True; [done|]. split; [by right|done]. }
        rewrite decide_False; [done|]. intros [Hin Hr]. apply Hd. split; [|done].
        apply elem_of_cons in Hin as [?|?]; done.
Qed.

(** X14. [newImageManagerCache] on references that can all be loaded
    returns a cache, at rest, rooted at [rootDir/image_state_manager], that
    holds for each reference given (the empty one apart) the record decoded
    from its file, and holds nothing else: a reference with no file, or one
    not in the list, has no record. *)
Theorem newImageManagerCache_hydrates m rootDir imageRefs o :
  let dir := filepath_Join rootDir imageManagerstateFileName in
  Forall (loadable o dir) imageRefs →
  let res := newImageManagerCache m rootDir imageRefs o in
  returned res = Some true
  ∧ quiescent (cache_of res)
  ∧ imageStateManagerPath (cache_of res) = dir
  ∧ ∀ r, cache_lookup r (cache_of res) =
         if decide (r ∈ imageRefs ∧ r ≠ EmptyString) then record_on_disk o dir r else None.
Proof.
  intros dir Hall res. subst res. unfold newImageManagerCache. fold dir.
  destruct (load_each_loadable m imageRefs
              {| lock := 0; cache := Some ∅; imageStateManagerPath := dir |} o ∅)
    as (c' & o' & cm' & Hrun & Hl & Hp & _ & _ & Hc & Hlook); [done|done|done|].
  rewrite Hrun. cbn in *.
  assert (∀ r, cm' !! r =
               if decide (r ∈ imageRefs ∧ r ≠ EmptyString) then record_on_disk o dir r
               else None) as Hlook'.
  { intros r. rewrite Hlook, lookup_empty.
    destruct (record_on_disk o dir r); by case_decide. }
  split; [done|]. split; [|split; [done|]].
  - split; [done|]. exists cm'. split; [done|].
    intros r info. rewrite Hlook'. case_decide; [|done].
    unfold record_on_disk. destruct (files o !! _) as [[[a|raw] perm|]|]; try done.
    by intros [= <-].
  - intros r. unfold cache_lookup. rewrite Hc. apply Hlook'.
Qed.

Lemma newImageManagerCache_hydrates_witness :
  let o := Sample.disk_with (JSONDoc {[ "hash1" := Some Sample.fresh ]}) in
  let res := newImageManagerCache GoMutex Sample.rootDir ["img-a"; "img-b"] o in
  returned res = Some true
  ∧ cache_lookup "img-a" (cache_of res)
    = Some (Sample.record {[ "hash1" := Some Sample.fresh ]})
  ∧ cache_lookup "img-b" (cache_of res) = None.
Proof.
  intros o res. subst res.
  destruct (newImageManagerCache_hydrates GoMutex Sample.rootDir ["img-a"; "img-b"] o)
    as (Hret & _ & _ & Hlook).
  { apply Forall_cons. split.
    - split; [reflexivity|]. right. right. split; [reflexivity|].
      exists {[ "hash1" := Some Sample.fresh ]}, (octal 6 4 4). vm_compute. reflexivity.
    - apply Forall_cons. split; [|apply Forall_nil_2].
      split; [reflexivity|]. right. left. vm_compute. reflexivity. }
  split; [exact Hret|].
  rewrite !Hlook. split; vm_compute; reflexivity.
Defined.

Lemma load_each_app m l1 l2 c o :
  load_each m (l1 ++ l2) c o =
  match load_each m l1 c o with
  | Done true c' o' => load_each m l2 c' o'
  | other => other
  end.
Proof.
  revert c o. induction l1 as [|r l1 IH]; intros c o; cbn; [done|].
  unfold bind. by destruct (loadImageManagerCache m r c o) as [[e|] c1 o1|c1 o1|c1 o1].
Qed.

(** X15. [newImageManagerCache] stops at the first reference that fails to
    load: when the references before it can be loaded and it cannot, nil is
    returned, and the references after it are not looked at. *)
Theorem newImageManagerCache_fails_fast m rootDir before bad rest o err :
  let dir := filepath_Join rootDir imageManagerstateFileName in
  Forall (loadable o dir) before →
  returned (loadImageManagerCache m bad
              {| lock := 0; cache := Some ∅; imageStateManagerPath := dir |} o)
  = Some (Some err) →
  returned (newImageManagerCache m rootDir (before ++ bad :: rest) o) = Some false
  ∧ newImageManagerCache m rootDir (before ++ bad :: rest) o
    = newImageManagerCache m rootDir (before ++ [bad]) o.
Proof.
  intros dir Hall Hbad. unfold newImageManagerCache. fold dir.
  rewrite !load_each_app.
  destruct (load_each_loadable m before
              {| lock := 0; cache := Some ∅; imageStateManagerPath := dir |} o ∅)
    as (c' & o' & cm' & Hrun & Hl & Hp & Hf & Hfa & Hc & _); [done|done|done|].
  rewrite Hrun. cbn [load_each]. unfold bind.
  destruct (loadImageManagerCache_cases m c' o' bad cm' Hl Hc) as (Hret' & _).
  destruct (loadImageManagerCache_cases m
              {| lock := 0; cache := Some ∅; imageStateManagerPath := dir |} o bad ∅
              eq_refl eq_refl) as (Hret & _).
  cbn [imageStateManagerPath] in Hp. unfold record_path in Hret, Hret'.
  cbn [imageStateManagerPath] in Hret. rewrite Hp, Hf, Hfa in Hret'.
  rewrite <- Hret, Hbad in Hret'.
  destruct (loadImageManagerCache m bad c' o') as [r c2 o2|c2 o2|c2 o2]; [|done|done].
  cbn in Hret'. injection Hret' as ->. done.
Qed.

Lemma newImageManagerCache_fails_fast_witness :
  let o := set_files {[ Sample.stateDir := Dir;
                        "/var/lib/kubelet/image_state_manager/img-b"
                        := File (NotJSON "{") (octal 6 4 4);
                        "/var/lib/kubelet/image_state_manager/img-c"
                        := File (JSONDoc ∅) (octal 6 4 4) ]} Sample.empty_disk in
  let res := newImageManagerCache GoMutex Sample.rootDir ["img-a"; "img-b"; "img-c"] o in
  returned res = Some false
  ∧ new_calls o (os_of res)
    = [SysStat "/var/lib/kubelet/image_state_manager/img-a";
       SysStat "/var/lib/kubelet/image_state_manager/img-b";
       SysReadFile "/var/lib/kubelet/image_state_manager/img-b"].
Proof.
  intros o res. subst res.
  destruct (newImageManagerCache_fails_fast GoMutex Sample.rootDir ["img-a"] "img-b"
              ["img-c"] o SyntaxError) as (Hret & Hsame).
  { apply Forall_cons. split; [|apply Forall_nil_2].
    split; [reflexivity|]. right. left. vm_compute. reflexivity. }
  { vm_compute. reflexivity. }
  split; [exact Hret|].
  change (["img-a"; "img-b"; "img-c"]) with (["img-a"] ++ "img-b" :: ["img-c"]).
  rewrite Hsame. vm_compute. reflexivity.
Defined.

(** ** The sweep, when there is nothing to sweep and when there is *)

Lemma refresh_records_no_entries m recheckPeriod records c o :
  Forall (λ kv : string * ImagePullInfo, Auths kv.2 = ∅) records →
  refresh_records m recheckPeriod records c o = Done None c o.
Proof.
  induction 1 as [|[k v] rest Hv _ IH]; cbn [refresh_records]; [done|].
  cbn in Hv. rewrite Hv, map_to_list_empty. exact IH.
Qed.

(** X16. A sweep of a cache in which no record has an entry (a nil map, an
    empty map, records left empty by [deleteAuthInfo]) returns no error and
    changes nothing, in memory or on disk, whatever [recheck] and the period
    are and under either mutex. *)
Theorem refreshImageManagerCache_nothing_to_sweep m recheck recheckPeriod c o :
  (∀ imageRef info, cache_lookup imageRef c = Some info → Auths info = ∅) →
  refreshImageManagerCache m recheck recheckPeriod c o = Done None c o.
Proof.
  intros Hempty. unfold refreshImageManagerCache.
  rewrite Mutex_Lock_free. destruct (recheck && _); [done|].
  apply refresh_records_no_entries, Forall_forall. intros [k v] Hin. cbn.
  unfold cache_lookup in Hempty. destruct (cache c) as [cm|]; cbn in Hin.
  - apply (Hempty k). by apply elem_of_map_to_list.
  - rewrite map_to_list_empty in Hin. by apply elem_of_nil in Hin.
Qed.

Lemma refreshImageManagerCache_nothing_to_sweep_witness :
  let c := Sample.cache_with (Sample.record {[ "hash1" := Some Sample.stale ]}) in
  let emptied := after (deleteAuthInfo GoMutex "img-a" "hash1" c Sample.empty_disk)
                   (refreshImageManagerCache GoMutex true Sample.hour) in
  returned emptied = Some None
  ∧ cache_lookup "img-a" (cache_of emptied) = Some (Sample.record ∅)
  ∧ os_of emptied = Sample.empty_disk.
Proof.
  intros c emptied. subst emptied.
  assert (deleteAuthInfo GoMutex "img-a" "hash1" c Sample.empty_disk
          = Done tt (Sample.cache_with (Sample.record ∅)) Sample.empty_disk) as ->
    by (vm_compute; reflexivity).
  cbn [after].
  rewrite (refreshImageManagerCache_nothing_to_sweep GoMutex true Sample.hour
             (Sample.cache_with (Sample.record ∅)) Sample.empty_disk).
  - repeat split; vm_compute; reflexivity.
  - intros imageRef info. unfold cache_lookup, Sample.cache_with. cbn.
    destruct (decide (imageRef = "img-a")) as [->|Hne].
    + rewrite lookup_singleton_eq. by intros [= <-].
    + by rewrite lookup_singleton_ne.
Defined.

Lemma deleteAuthInfo_no_call m c o imageRef hash :
  os_of (deleteAuthInfo m imageRef hash c o) = o.
Proof.
  destruct c as [l cc p].
  unfold deleteAuthInfo, with_c_lock, bind, c_lock_Lock, c_lock_Unlock, cache_lookup,
    mux_Lock, mux_Unlock. cbn.
  destruct (Mutex_Lock m l) as [l'|]; cbn; [|done].
  destruct cc as [cm|]; cbn; [|by destruct l'].
  destruct (cm !! imageRef) as [info|] eqn:Hin; cbn; [|by destruct l'].
  destruct (Mutex_Lock m (mux info)) as [mx|]; cbn; [|done].
  rewrite lookup_alter_eq, lookup_insert_eq. cbn. destruct mx; cbn; by destruct l'.
Qed.

Lemma refresh_auths_no_call recheckPeriod k auths c o :
  lock c = 0 →
  os_of (refresh_auths GoMutex recheckPeriod k auths c o) = o.
Proof.
  intros Hl. destruct auths as [|[i auth] rest]; [done|].
  cbn [refresh_auths]. unfold bind at 1.
  assert (∀ c1, lock c1 = 0 →
            os_of (bind (setImagePullInfo GoMutex k i auth)
                     (λ err, match err with
                             | Some e => ret (Some e)
                             | None => refresh_auths GoMutex recheckPeriod k rest
                             end) c1 o) = o) as Hset.
  { intros c1 Hl1. unfold bind. by rewrite setImagePullInfo_never_returns. }
  destruct auth as [a|]; [|by apply Hset].
  unfold bind at 1, time_Now.
  destruct (time_Before _ _); [|by apply Hset].
  pose proof (deleteAuthInfo_unlocks c o k i Hl) as Hd.
  pose proof (deleteAuthInfo_no_call GoMutex c o k i) as Ho.
  destruct (deleteAuthInfo GoMutex k i c o) as [[] c1 o1|c1 o1|c1 o1]; cbn in Ho; subst;
    [|done|done].
  by apply Hset.
Qed.

Lemma refresh_records_no_call recheckPeriod records c o :
  lock c = 0 →
  os_of (refresh_records GoMutex recheckPeriod records c o) = o.
Proof.
  intros Hl. induction records as [|[k v] rest IH]; cbn [refresh_records]; [done|].
  destruct (decide (Auths v = ∅)) as [He|Hne].
  - by rewrite He, map_to_list_empty.
  - unfold bind.
    assert (map_to_list (Auths v) ≠ []) as Hnil
      by (intros Hnil; by apply map_to_list_empty_iff in Hnil).
    pose proof (refresh_auths_never_returns recheckPeriod k _ c o Hl Hnil) as Hb.
    pose proof (refresh_auths_no_call recheckPeriod k (map_to_list (Auths v)) c o Hl) as Ho.
    by destruct (refresh_auths _ _ _ _ _ _).
Qed.

(** X17. Under Go's mutex the sweep never reaches the disk: from a cache
    with [c.lock] free it makes no system call at all; and whenever some
    record has an entry, and the sweep is not the one with [recheck] set and a
    period of zero, it never returns. *)
Theorem refreshImageManagerCache_under_go_mutex recheck recheckPeriod c o imageRef info :
  lock c = 0 →
  cache_lookup imageRef c = Some info →
  Auths info ≠ ∅ →
  recheck = false ∨ recheckPeriod ≠ 0%Z →
  blocked (refreshImageManagerCache GoMutex recheck recheckPeriod c o) = true
  ∧ os_of (refreshImageManagerCache GoMutex recheck recheckPeriod c o) = o.
Proof.
  intros Hl Hin Hne Hguard. split.
  - unfold cache_lookup in Hin. destruct (cache c) as [cm|] eqn:Hc; [|done].
    by eapply refreshImageManagerCache_never_returns.
  - unfold refreshImageManagerCache. cbn.
    destruct (recheck && _); [done|]. by apply refresh_records_no_call.
Qed.

Lemma refreshImageManagerCache_under_go_mutex_witness :
  let c := Sample.cache_with (Sample.record {[ "hash1" := Some Sample.fresh ]}) in
  blocked (refreshImageManagerCache GoMutex true Sample.hour c Sample.empty_disk) = true
  ∧ os_of (refreshImageManagerCache GoMutex true Sample.hour c Sample.empty_disk)
    = Sample.empty_disk.
Proof.
  intros c.
  apply (refreshImageManagerCache_under_go_mutex true Sample.hour c Sample.empty_disk
           "img-a" (Sample.record {[ "hash1" := Some Sample.fresh ]}));
    [reflexivity | vm_compute; reflexivity | | right; discriminate].
  intros Hempty. apply (f_equal (λ a, a !! "hash1")) in Hempty.
  vm_compute in Hempty. discriminate.
Defined.

(** ** The mutexes are given back *)

Lemma quiescent_insert c imageRef info :
  quiescent c → mux info = 0 →
  quiescent (set_cache (Some (<[imageRef := info]> (default ∅ (cache c)))) c).
Proof.
  intros (Hl & cm & Hc & Hm) Hi. split; [by destruct c|].
  eexists. split; [reflexivity|]. rewrite Hc. cbn.
  intros r i. destruct (decide (r = imageRef)) as [->|Hne].
  - rewrite lookup_insert_eq. by intros [= <-].
  - rewrite lookup_insert_ne by done. apply Hm.
Qed.

Lemma loadImageManagerCache_keeps_quiescent m c o imageRef :
  quiescent c → keeps_quiescent (loadImageManagerCache m imageRef c o).
Proof.
  intros Hq. pose proof Hq as (Hl & cm & Hc & Hm).
  destruct c as [l cc p]; cbn in *; subst.
  unfold loadImageManagerCache, with_c_lock, bind, sys, os_Stat, c_lock_Lock,
    c_lock_Unlock, cache_assign, os_ReadFile, utiljson_Unmarshal. cbn.
  destruct (fault o NStat _) as [e|]; cbn.
  { by destruct e. }
  destruct (files o !! _) as [n|] eqn:Hf; cbn; [|done].
  destruct (decide (imageRef = EmptyString)); cbn; [done|].
  rewrite Mutex_Lock_free. cbn. rewrite Hf.
  destruct (fault o NReadFile _) as [e|]; cbn; [done|].
  destruct n as [[a|raw] perm|]; cbn; [|done|done].
  by apply (quiescent_insert {| lock := 0; cache := Some cm; imageStateManagerPath := p |}).
Qed.

(** Under Go's mutex [getImagePullInfo] either blocks or hands back what is
    in memory, which it leaves as it was. *)
Lemma getImagePullInfo_go_cases c o imageRef :
  lock c = 0 →
  (∃ o', getImagePullInfo GoMutex imageRef c o = Done (cache_lookup imageRef c) c o')
  ∨ (∃ c' o', getImagePullInfo GoMutex imageRef c o = Blocked c' o').
Proof.
  intros Hl. destruct c as [l cc p]; cbn in *; subst.
  unfold getImagePullInfo, loadImageManagerCache, with_c_lock, bind, sys, os_Stat,
    c_lock_Lock, c_lock_Unlock. cbn.
  destruct (fault o NStat _) as [e|]; cbn.
  { destruct e; cbn; eauto. }
  destruct (files o !! _) as [n|] eqn:Hf; cbn; [|eauto].
  destruct (decide (imageRef = EmptyString)); cbn; eauto.
Qed.

Lemma getAuthInfo_after_get m c0 o0 imageRef hash c o :
  getImagePullInfo m imageRef c0 o0 = Done (cache_lookup imageRef c) c o →
  lock c = 0 →
  (∀ info, cache_lookup imageRef c = Some info → mux info = 0) →
  getAuthInfo m imageRef hash c0 o0 = Done (auth_of imageRef hash c) c o.
Proof.
  intros Hget Hl Hm.
  unfold getAuthInfo, bind at 1. rewrite Hget.
  unfold auth_of. destruct (cache_lookup imageRef c) as [info|] eqn:Hin; [|done].
  specialize (Hm info eq_refl).
  destruct c as [l cc p]; unfold cache_lookup in *; cbn in *; subst.
  destruct cc as [cm|]; [|done].
  unfold with_c_lock, bind, c_lock_Lock, mux_Lock, mux_Unlock, cache_lookup. cbn.
  rewrite Mutex_Lock_free. cbn. rewrite Hin, Hm, Mutex_Lock_free. cbn.
  rewrite !lookup_insert_eq. cbn.
  rewrite insert_insert_eq. unfold set_mux at 1. cbn.
  destruct info as [mx au]; cbn in *; subst. by rewrite insert_id.
Qed.

Lemma refresh_records_keeps_quiescent recheckPeriod records c o :
  quiescent c →
  keeps_quiescent (refresh_records GoMutex recheckPeriod records c o).
Proof.
  intros Hq. induction records as [|[k v] rest IH]; cbn [refresh_records]; [done|].
  destruct (decide (Auths v = ∅)) as [He|Hne].
  - by rewrite He, map_to_list_empty.
  - unfold bind.
    assert (map_to_list (Auths v) ≠ []) as Hnil
      by (intros Hnil; by apply map_to_list_empty_iff in Hnil).
    pose proof (refresh_auths_never_returns recheckPeriod k _ c o (proj1 Hq) Hnil) as Hb.
    by destruct (refresh_auths _ _ _ _ _ _).
Qed.

(** X18. No method panics on a cache at rest, and every method that returns
    leaves it at rest: under Go's mutex, from a cache whose map is allocated
    and whose mutexes are all free, each of the nine methods either does not
    return or returns with the map allocated and [c.lock] and every record's
    [mux] free again. *)
Theorem methods_keep_the_cache_at_rest c o imageRef hash data recheck recheckPeriod :
  quiescent c →
  keeps_quiescent (loadImageManagerCache GoMutex imageRef c o)
  ∧ keeps_quiescent (getImagePullInfo GoMutex imageRef c o)
  ∧ keeps_quiescent (getAuthInfo GoMutex imageRef hash c o)
  ∧ keeps_quiescent (setAuthInfo GoMutex imageRef hash data c o)
  ∧ keeps_quiescent (deleteAuthInfo GoMutex imageRef hash c o)
  ∧ keeps_quiescent (deleteImagePullInfo GoMutex imageRef c o)
  ∧ keeps_quiescent (storeImageManagerCache GoMutex imageRef c o)
  ∧ keeps_quiescent (setImagePullInfo GoMutex imageRef hash data c o)
  ∧ keeps_quiescent (refreshImageManagerCache GoMutex recheck recheckPeriod c o).
Proof.
  intros Hq. pose proof Hq as (Hl & cm & Hc & Hm).
  assert (∀ info, cache_lookup imageRef c = Some info → mux info = 0) as Hmux.
  { intros info. unfold cache_lookup. rewrite Hc. apply Hm. }
  split; [by apply loadImageManagerCache_keeps_quiescent|].
  split.
  { destruct (getImagePullInfo_go_cases c o imageRef Hl) as [(o' & ->)|(c' & o' & ->)]; done. }
  split.
  { destruct (getImagePullInfo_go_cases c o imageRef Hl) as [(o' & Hg)|(c' & o' & Hg)].
    - by rewrite (getAuthInfo_after_get GoMutex c o imageRef hash c o').
    - unfold getAuthInfo, bind. by rewrite Hg. }
  split.
  { rewrite setAuthInfo_run by done. cbn. by apply quiescent_insert. }
  split.
  { rewrite deleteAuthInfo_run by done. cbn. split; [by destruct c|].
    rewrite Hc. eexists. split; [by destruct c|].
    intros r info. destruct (decide (r = imageRef)) as [->|Hne].
    - rewrite lookup_alter_eq. destruct (cm !! imageRef) as [i|] eqn:Hi; [|done].
      cbn. intros [= <-]. cbn. by apply (Hm imageRef).
    - rewrite lookup_alter_ne by done. apply Hm. }
  split.
  { rewrite deleteImagePullInfo_run by done. destruct (os_Remove _ o) as [err o'].
    cbn. split; [by destruct c|]. rewrite Hc. eexists. split; [by destruct c|].
    intros r info Hr. apply lookup_delete_Some in Hr as [_ Hr]. by apply (Hm r). }
  split; [by rewrite storeImageManagerCache_never_returns|].
  split; [by rewrite setImagePullInfo_never_returns|].
  unfold refreshImageManagerCache. cbn. destruct (recheck && _); [done|].
  by apply refresh_records_keeps_quiescent.
Qed.

Lemma methods_keep_the_cache_at_rest_witness :
  let c := Sample.cache_with (Sample.record {[ "hash1" := Some Sample.fresh ]}) in
  quiescent c
  ∧ keeps_quiescent (getAuthInfo GoMutex "img-a" "hash1" c Sample.empty_disk)
  ∧ returned (getAuthInfo GoMutex "img-a" "hash1" c Sample.empty_disk)
    = Some (Some Sample.fresh).
Proof.
  intros c.
  assert (quiescent c) as Hq.
  { split; [reflexivity|]. eexists. split; [reflexivity|].
    intros r info. destruct (decide (r = "img-a")) as [->|Hne].
    - rewrite lookup_singleton_eq. by intros [= <-].
    - by rewrite lookup_singleton_ne. }
  destruct (methods_keep_the_cache_at_rest c Sample.empty_disk "img-a" "hash1" None
              true Sample.hour Hq) as (_ & _ & Hget & _).
  split; [exact Hq|]. split; [exact Hget | vm_compute; reflexivity].
Defined.

(** ** Hydration, composed *)

(** X19. Under Go's mutex a record that [newImageManagerCache] has loaded
    from its file cannot be read back: for every reference given to the
    constructor whose file decodes, [getImagePullInfo] and [getAuthInfo] on the
    cache just built never return, the file being still there. *)
Theorem hydrated_record_cannot_be_read rootDir imageRefs o imageRef hash info :
  let dir := filepath_Join rootDir imageManagerstateFileName in
  Forall (loadable o dir) imageRefs →
  imageRef ∈ imageRefs →
  imageRef ≠ EmptyString →
  record_on_disk o dir imageRef = Some info →
  let built := newImageManagerCache GoMutex rootDir imageRefs o in
  returned built = Some true
  ∧ cache_lookup imageRef (cache_of built) = Some info
  ∧ blocked (after built (getImagePullInfo GoMutex imageRef)) = true
  ∧ blocked (after built (getAuthInfo GoMutex imageRef hash)) = true.
Proof.
  intros dir Hall Hin Hne Hdisk built. subst built.
  unfold newImageManagerCache. fold dir.
  destruct (load_each_loadable GoMutex imageRefs
              {| lock := 0; cache := Some ∅; imageStateManagerPath := dir |} o ∅)
    as (c' & o' & cm' & Hrun & Hl & Hp & Hf & Hfa & Hc & Hlook); [done|done|done|].
  rewrite Hrun. cbn [returned cache_of after]. cbn in Hp, Hlook.
  split; [done|].
  split.
  { unfold cache_lookup. rewrite Hc, Hlook, Hdisk. by rewrite decide_True. }
  assert (fault o' NStat (record_path c' imageRef) = None) as Hs.
  { unfold record_path. rewrite Hp, Hfa.
    apply (proj1 (Forall_forall _ _) Hall) in Hin. apply Hin. }
  assert (is_Some (files o' !! record_path c' imageRef)) as Hfile.
  { unfold record_path. rewrite Hp, Hf. unfold record_on_disk in Hdisk.
    destruct (files o !! _); [eauto|done]. }
  pose proof (getImagePullInfo_blocks_on_file c' o' Hl imageRef Hne Hs Hfile) as Hb.
  split; [by rewrite Hb|]. unfold getAuthInfo, bind. by rewrite Hb.
Qed.

Lemma hydrated_record_cannot_be_read_witness :
  let o := Sample.disk_with (JSONDoc {[ "hash1" := Some Sample.fresh ]}) in
  let built := newImageManagerCache GoMutex Sample.rootDir ["img-a"] o in
  cache_lookup "img-a" (cache_of built)
  = Some (Sample.record {[ "hash1" := Some Sample.fresh ]})
  ∧ blocked (after built (getAuthInfo GoMutex "img-a" "hash1")) = true.
Proof.
  intros o built. subst built.
  destruct (hydrated_record_cannot_be_read Sample.rootDir ["img-a"] o "img-a" "hash1"
              (Sample.record {[ "hash1" := Some Sample.fresh ]}))
    as (_ & Hrec & _ & Hblocked).
  - apply Forall_cons. split; [|apply Forall_nil_2].
    split; [reflexivity|]. right. right. split; [reflexivity|].
    exists {[ "hash1" := Some Sample.fresh ]}, (octal 6 4 4). vm_compute. reflexivity.
  - apply list_elem_of_singleton. reflexivity.
  - discriminate.
  - vm_compute. reflexivity.
  - split; [exact Hrec | exact Hblocked].
Defined.

(** X20. Loading a reference twice is loading it once: when [c.lock] is
    free and the map allocated, a second [loadImageManagerCache] of the same
    reference returns what the first returned and leaves the cache in memory
    as the first left it. *)
Theorem loadImageManagerCache_idempotent m c o imageRef cm :
  lock c = 0 →
  cache c = Some cm →
  let once := loadImageManagerCache m imageRef c o in
  let twice := after once (loadImageManagerCache m imageRef) in
  returned twice = returned once
  ∧ cache_of twice = cache_of once.
Proof.
  intros Hl Hc once twice. subst once twice.
  destruct c as [l cc p]; cbn in *; subst.
  unfold loadImageManagerCache, with_c_lock, bind, sys, os_Stat, c_lock_Lock,
    c_lock_Unlock, cache_assign, os_ReadFile, utiljson_Unmarshal. cbn.
  destruct (fault o NStat _) as [e|] eqn:Hs; cbn.
  { destruct e; cbn; by rewrite Hs. }
  destruct (files o !! _) as [n|] eqn:Hf; cbn; [|by rewrite Hs, Hf].
  destruct (decide (imageRef = EmptyString)) as [He|He]; cbn.
  { rewrite Hs, Hf. cbn. by destruct (decide (imageRef = EmptyString)). }
  rewrite Mutex_Lock_free. cbn. rewrite Hf.
  destruct (fault o NReadFile _) as [e|] eqn:Hr; cbn.
  { rewrite Hs, Hf. cbn. destruct (decide (imageRef = EmptyString)); [done|].
    rewrite Mutex_Lock_free. cbn. by rewrite Hr. }
  destruct n as [[a|raw] perm|]; cbn; rewrite Hs, Hf; cbn;
    (destruct (decide (imageRef = EmptyString)); [done|]);
    rewrite Mutex_Lock_free; cbn; rewrite Hr, Hf; cbn; try done.
  by rewrite insert_insert_eq.
Qed.

Lemma loadImageManagerCache_idempotent_witness :
  let o := Sample.disk_with (JSONDoc {[ "hash1" := Some Sample.fresh ]}) in
  let once := loadImageManagerCache GoMutex "img-a" Sample.empty_cache o in
  cache_lookup "img-a" (cache_of once)
  = Some (Sample.record {[ "hash1" := Some Sample.fresh ]})
  ∧ cache_of (after once (loadImageManagerCache GoMutex "img-a")) = cache_of once.
Proof.
  intros o once. subst once.
  destruct (loadImageManagerCache_idempotent GoMutex Sample.empty_cache o "img-a" ∅)
    as (_ & Hsame); [reflexivity | reflexivity |].
  split; [vm_compute; reflexivity | exact Hsame].
Defined.
